(** * CreateQuestionsFromVideos: the chunker, the response parser and the
      report builder of [video_processor.py], embedded and verified.

    Python values are modelled as follows.
    - [str] is a list of Unicode code points ([N]); [len] counts code points.
    - [int] is [Z].
    - a [dict] built by a literal or by [json.loads] is an association list
      in insertion order; the two grouping dicts of the report, which are
      only read and updated by key, are [gmap]s.
    - an exception is a value of [exn]; a call that may raise returns a
      [result].
    - the file system is a [gmap] from paths to contents, passed explicitly.
    - the collaborators the program calls but does not define (the language
      model, the JSON decoder and the JSON dump, the audio extractor and
      the recogniser) are parameters of the sections that use them.
    - what the program logs is left out: the model never writes the file
      [video_processor.log]. *)

From Stdlib Require Import ZArith NArith List Lia Ascii String PrimFloat.
From Stdlib Require Import Sorted Permutation.
From stdpp Require Import base decidable option list countable gmap fin_maps.
Import ListNotations.

Local Open Scope Z_scope.

(* ===================================================================== *)
(** * Python strings *)
(* ===================================================================== *)

Module PyStr.

Definition char := N.
Definition str := list char.

(** A literal: the code points of an ASCII string. *)
Definition lit (s : string) : str :=
  List.map N_of_ascii (list_ascii_of_string s).

Definition len (s : str) : Z := Z.of_nat (length s).

(** [str.isspace] on one code point: the table behind CPython's
    [Py_UNICODE_ISSPACE], which [str.split()] and [str.strip()] use. *)
Definition isspace (c : char) : bool :=
  ((9 <=? c) && (c <=? 13) || (28 <=? c) && (c <=? 32)
   || (c =? 133) || (c =? 160) || (c =? 5760)
   || (8192 <=? c) && (c <=? 8202)
   || (c =? 8232) || (c =? 8233) || (c =? 8239) || (c =? 8287)
   || (c =? 12288))%N.

Definition SPACE : char := 32%N.
Definition NEWLINE : char := 10%N.
Definition QUESTION_MARK : char := 63%N.
Definition LBRACKET : char := 91%N.
Definition RBRACKET : char := 93%N.

(** [sep.join(l)]. *)
Fixpoint join (sep : str) (l : list str) : str :=
  match l with
  | [] => []
  | x :: l' =>
      match l' with
      | [] => x
      | _ :: _ => x ++ sep ++ join sep l'
      end
  end.

(** [s.split()]: runs of whitespace separate the words, and leading and
    trailing whitespace yields no empty word.  [cur] is the word being
    read, last character first; it is empty between words. *)
Fixpoint split_go (cur : str) (s : str) : list str :=
  match s with
  | [] =>
      match cur with
      | [] => []
      | _ :: _ => [rev cur]
      end
  | c :: s' =>
      if isspace c then
        match cur with
        | [] => split_go [] s'
        | _ :: _ => rev cur :: split_go [] s'
        end
      else split_go (c :: cur) s'
  end.

Definition split (s : str) : list str := split_go [] s.

(** [s.split(sep)] for a one-character separator: always at least one
    piece, empty pieces are kept. *)
Fixpoint split_on (sep : char) (s : str) : list str :=
  match s with
  | [] => [[]]
  | c :: s' =>
      if (c =? sep)%N then [] :: split_on sep s'
      else
        match split_on sep s' with
        | piece :: pieces => (c :: piece) :: pieces
        | [] => [[c]]
        end
  end.

Fixpoint lstrip (s : str) : str :=
  match s with
  | [] => []
  | c :: s' => if isspace c then lstrip s' else s
  end.

Definition rstrip (s : str) : str := rev (lstrip (rev s)).

(** [s.strip()]. *)
Definition strip (s : str) : str := rstrip (lstrip s).

(** [c in s]. *)
Definition contains (c : char) (s : str) : bool :=
  existsb (N.eqb c) s.

(** [" ".join(s.split())]: the whitespace-normalised text. *)
Definition normalize (s : str) : str := join [SPACE] (split s).

End PyStr.

Import PyStr.

(* ===================================================================== *)
(** * The processor and its chunker *)
(* ===================================================================== *)

(** The attributes of a [VideoProcessor] that the methods below read. *)
Record VideoProcessor := {
  OLLAMA_MODEL : str;
  MAX_CHUNK_TOKENS : Z;
  transcribed_dir : str;
  questions_dir : str
}.

(** The class as written: the attribute values of the class body. *)
Definition default_processor : VideoProcessor :=
  {| OLLAMA_MODEL := lit "llama3.1:8b";
     MAX_CHUNK_TOKENS := 3000;
     transcribed_dir := lit "transcribed";
     questions_dir := lit "questions" |}.

(** The locals of the loop of [chunk_text]. *)
Record chunker := {
  chunks : list str;
  current_chunk : list str;
  current_length : Z
}.

Definition truthy {A} (l : list A) : bool :=
  match l with
  | [] => false
  | _ :: _ => true
  end.

(** One iteration of [for word in words]. *)
Definition chunk_step (chars_per_chunk : Z) (st : chunker) (word : str)
  : chunker :=
  let word_length := len word + 1 in
  if bool_decide (current_length st + word_length > chars_per_chunk)
     && truthy (current_chunk st)
  then {| chunks := chunks st ++ [join [SPACE] (current_chunk st)];
          current_chunk := [word];
          current_length := word_length |}
  else {| chunks := chunks st;
          current_chunk := current_chunk st ++ [word];
          current_length := current_length st + word_length |}.

Definition chunk_init : chunker :=
  {| chunks := []; current_chunk := []; current_length := 0 |}.

Definition chunk_finish (st : chunker) : list str :=
  if truthy (current_chunk st)
  then chunks st ++ [join [SPACE] (current_chunk st)]
  else chunks st.

Definition chunk_text (self : VideoProcessor) (text : str) : list str :=
  let chars_per_chunk := MAX_CHUNK_TOKENS self * 4 in
  let words := split text in
  chunk_finish (fold_left (chunk_step chars_per_chunk) words chunk_init).

(** A processor with a small budget, to run the chunker on short texts. *)
Definition tiny_processor : VideoProcessor :=
  {| OLLAMA_MODEL := lit "llama3.1:8b";
     MAX_CHUNK_TOKENS := 3;
     transcribed_dir := lit "transcribed";
     questions_dir := lit "questions" |}.

(** ** Specification vocabulary for the chunker *)

(** Free of whitespace. *)
Definition nonspace (w : str) : Prop := Forall (fun c => isspace c = false) w.

(** A word: what [split] returns, non-empty and free of whitespace. *)
Definition word (w : str) : Prop := w <> [] /\ nonspace w.

(** What [current_length] adds up: every word and one separator each. *)
Fixpoint cost (ws : list str) : Z :=
  match ws with
  | [] => 0
  | w :: ws' => len w + 1 + cost ws'
  end.

(** A group of words that the loop may close as one chunk. *)
Definition packed (B : Z) (g : list str) : Prop :=
  g <> [] /\ (cost g <= B \/ exists w, g = [w]).

Record chunk_inv (B : Z) (seen : list str) (st : chunker) (gs : list (list str))
  : Prop := {
  inv_chunks : chunks st = List.map (join [SPACE]) gs;
  inv_seen : concat gs ++ current_chunk st = seen;
  inv_length : current_length st = cost (current_chunk st);
  inv_groups : Forall (packed B) gs;
  inv_current : current_chunk st = [] \/ packed B (current_chunk st)
}.


(* ===================================================================== *)
(** * Exceptions and JSON values *)
(* ===================================================================== *)

(** The exceptions the modelled code can meet.  All of them are instances
    of Python's [Exception]. *)
Inductive exn :=
| JSONDecodeError
| KeyError
| TypeError
| AttributeError
| UnicodeEncodeError
| OtherException (message : str).

(** The outcome of a call: a value, or a raised exception. *)
Inductive result (A : Type) :=
| Ok (a : A)
| Raise (e : exn).

Arguments Ok {A} a.
Arguments Raise {A} e.

Definition bind {A B} (m : result A) (k : A -> result B) : result B :=
  match m with
  | Ok a => k a
  | Raise e => Raise e
  end.

Notation "'let*' x ':=' m 'in' k" := (bind m (fun x => k))
  (at level 10, x name, m at level 100, k at level 200).

(** What [json.loads] can return.  A dict keeps its entries in insertion
    order; [dict_get] reads the first entry of a key. *)
#[warnings="-register-all"] Inductive json :=
| JNull
| JBool (b : bool)
| JInt (n : Z)
| JFloat (x : float)
| JStr (s : str)
| JList (items : list json)
| JDict (entries : list (str * json)).

Definition str_eqb (a b : str) : bool := bool_decide (a = b).

Fixpoint assoc (entries : list (str * json)) (key : str) : option json :=
  match entries with
  | [] => None
  | (k, v) :: entries' => if str_eqb k key then Some v else assoc entries' key
  end.

(** [d[key] = v] on a dict: an existing key keeps its place. *)
Fixpoint dict_set (entries : list (str * json)) (key : str) (v : json)
  : list (str * json) :=
  match entries with
  | [] => [(key, v)]
  | (k, v') :: entries' =>
      if str_eqb k key then (k, v) :: entries'
      else (k, v') :: dict_set entries' key v
  end.

(** [q.get(key, default)]: only a dict has the method. *)
Definition dict_get (q : json) (key : str) (default : json) : result json :=
  match q with
  | JDict entries =>
      Ok (match assoc entries key with
          | Some v => v
          | None => default
          end)
  | _ => Raise AttributeError
  end.

(* ===================================================================== *)
(** * The manual fallback parser *)
(* ===================================================================== *)

Definition KEY_QUESTION : str := lit "question".
Definition KEY_SPEAKER : str := lit "speaker".
Definition KEY_TYPE : str := lit "type".
Definition UNKNOWN : str := lit "unknown".
Definition GENERAL : str := lit "general".

(** The dict literal of the loop body. *)
Definition manual_record (line : str) : list (str * json) :=
  [(KEY_QUESTION, JStr line); (KEY_SPEAKER, JStr UNKNOWN);
   (KEY_TYPE, JStr GENERAL)].

(** ['?' in line and len(line) > 10]. *)
Definition likely_question (line : str) : bool :=
  contains QUESTION_MARK line && bool_decide (len line > 10).

(** The locals [questions] and [current_question] of the loop; the empty
    dict is falsy. *)
Definition manual_step (st : list json * list (str * json)) (line : str)
  : list json * list (str * json) :=
  let '(questions, current_question) := st in
  let line := strip line in
  if likely_question line then
    (if truthy current_question
     then questions ++ [JDict current_question]
     else questions,
     manual_record line)
  else (questions, current_question).

Definition _parse_questions_manually (response_text : str) : list json :=
  let lines := split_on NEWLINE response_text in
  let '(questions, current_question) :=
    fold_left manual_step lines ([], []) in
  if truthy current_question
  then questions ++ [JDict current_question]
  else questions.

(** What the parser returns from a loop state. *)
Definition manual_flush (st : list json * list (str * json)) : list json :=
  if truthy (snd st) then fst st ++ [JDict (snd st)] else fst st.

(* ===================================================================== *)
(** * Question extraction from one chunk and from a transcript *)
(* ===================================================================== *)

(** The suffix of [s] that starts at the first [c]. *)
Fixpoint from_first (c : char) (s : str) : option str :=
  match s with
  | [] => None
  | d :: s' => if (d =? c)%N then Some s else from_first c s'
  end.

(** The longest prefix of [s] that ends in [c]. *)
Fixpoint upto_last (c : char) (s : str) : option str :=
  match s with
  | [] => None
  | d :: s' =>
      match upto_last c s' with
      | Some p => Some (d :: p)
      | None => if (d =? c)%N then Some [d] else None
      end
  end.

(** [re.search(r'\[.*\]', text, re.DOTALL)], then [.group()]: with DOTALL
    the dot matches every character, so the leftmost match starts at the
    first opening bracket and the greedy star carries it to the last closing
    bracket after it; there is no match when no closing bracket follows the
    first opening one. *)
Definition search_bracket_span (text : str) : option str :=
  match from_first LBRACKET text with
  | Some (open :: rest) =>
      match upto_last RBRACKET rest with
      | Some body => Some (open :: body)
      | None => None
      end
  | _ => None
  end.

Definition quoted (s : string) : str := [34%N] ++ lit s ++ [34%N].

Definition PROMPT_BEFORE : str :=
  join [NEWLINE]
    [ [];
      lit "Analyze the following transcript and extract all questions that were asked.";
      lit "For each question, identify:";
      lit "1. The exact question text";
      lit "2. Whether it was asked by an interviewer or interviewee";
      lit "3. The type of question (technical, behavioral, general)";
      [];
      lit "Return the result as a JSON array where each item has:";
      lit "- " ++ quoted "question" ++ lit ": the exact question text";
      lit "- " ++ quoted "speaker" ++ lit ": " ++ quoted "interviewer"
        ++ lit " or " ++ quoted "interviewee" ++ lit " ";
      lit "- " ++ quoted "type" ++ lit ": " ++ quoted "technical" ++ lit ", "
        ++ quoted "behavioral" ++ lit ", or " ++ quoted "general";
      [];
      lit "Transcript:";
      [] ].

Definition PROMPT_AFTER : str :=
  join [NEWLINE]
    [ [];
      [];
      lit "Please analyze both Russian and English text appropriately.";
      [] ].

(** [prompt.format(text=text_chunk)]. *)
Definition format_prompt (text_chunk : str) : str :=
  PROMPT_BEFORE ++ text_chunk ++ PROMPT_AFTER.

Section Extraction.

(** The language model is a stateful service: a call takes the model name
    and the prompt, and returns the generated text or raises. *)
Context {World : Type}.
Variable ollama_generate : str -> str -> World -> result str * World.

(** [json.loads]. *)
Variable json_loads : str -> result json.

Definition generate_questions_from_chunk
    (self : VideoProcessor) (text_chunk : str) (w : World)
  : list json * World :=
  match ollama_generate (OLLAMA_MODEL self) (format_prompt text_chunk) w with
  | (Raise _, w') => ([], w')                        (* except Exception *)
  | (Ok response, w') =>
      let response_text := strip response in
      match search_bracket_span response_text with
      | Some json_text =>
          match json_loads json_text with
          | Ok questions =>
              (match questions with
               | JList items => items
               | _ => []
               end, w')
          | Raise JSONDecodeError => ([], w')  (* except json.JSONDecodeError *)
          | Raise _ => ([], w')                      (* except Exception *)
          end
      | None => (_parse_questions_manually response_text, w')
      end
  end.

(** The loop of [generate_questions], with its local [all_questions]. *)
Fixpoint generate_questions_loop
    (self : VideoProcessor) (chunks : list str) (all_questions : list json)
    (w : World) : list json * World :=
  match chunks with
  | [] => (all_questions, w)
  | chunk :: chunks' =>
      let '(questions, w') := generate_questions_from_chunk self chunk w in
      generate_questions_loop self chunks' (all_questions ++ questions) w'
  end.

Definition generate_questions
    (self : VideoProcessor) (transcript : str) (w : World)
  : list json * World :=
  generate_questions_loop self (chunk_text self transcript) [] w.

End Extraction.

(* ===================================================================== *)
(** * Paths and the file system *)
(* ===================================================================== *)

(** A [pathlib.Path], by the parts the program reads: the directory, and
    the final component split into [stem] and [suffix]. *)
Record Path := {
  parent : str;
  stem : str;
  suffix : str
}.

(** [p.name]. *)
Definition name (p : Path) : str := stem p ++ suffix p.

(** [p.with_suffix(s)]. *)
Definition with_suffix (p : Path) (s : str) : Path :=
  {| parent := parent p; stem := stem p; suffix := s |}.

#[global] Instance Path_eq_dec : EqDecision Path.
Proof. solve_decision. Defined.

#[global] Instance Path_countable : Countable Path.
Proof.
  refine (inj_countable'
            (fun p => (parent p, stem p, suffix p))
            (fun t => {| parent := t.1.1; stem := t.1.2; suffix := t.2 |}) _).
  intros []; reflexivity.
Defined.

(** The report that [save_questions] builds and dumps. *)
Record QuestionReport := {
  video_name : str;
  total_questions : Z;
  by_speaker : gmap str (list json);
  by_type : gmap str (list json);
  all_questions : list json
}.

(** What a file holds: an extracted audio track, a text, the JSON dump of
    a report (the dump is identified with the report it serialises), or
    what a dump that raised has left: the file was emptied when it was
    opened with ['w'], and it holds the part of the dump of [r] that was
    written before the exception. *)
Inductive content :=
| Audio (source : Path)
| Text (s : str)
| Report (r : QuestionReport)
| Truncated (r : QuestionReport).

Abbreviation filesystem := (gmap Path content).

(* ===================================================================== *)
(** * Transcription *)
(* ===================================================================== *)

Section Transcription.

(** [VideoFileClip(video).audio.write_audiofile(audio)]: it may write the
    audio file, and it may raise. *)
Variable extract_audio : Path -> Path -> filesystem -> result unit * filesystem.

(** [whisper_model.transcribe(audio, ...)['text']]. *)
Variable whisper_transcribe : Path -> filesystem -> result str.

Definition transcribe_video (video_path : Path) (fs : filesystem)
  : result str * filesystem :=
  let audio_path := with_suffix video_path (lit ".wav") in
  match extract_audio video_path audio_path fs with
  | (Raise e, fs1) => (Raise e, fs1)             (* except: log, raise *)
  | (Ok _, fs1) =>
      match whisper_transcribe audio_path fs1 with
      | Raise e => (Raise e, fs1)                (* except: log, raise *)
      | Ok text =>
          (* audio_path.unlink(missing_ok=True) *)
          let fs2 := delete audio_path fs1 in
          (Ok (strip text), fs2)
      end
  end.

End Transcription.

(** [save_transcript]: the transcript goes, as it is, to
    [<transcribed_dir>/<stem>_transcript.txt]. *)
Definition save_transcript (self : VideoProcessor) (video_path : Path)
    (transcript : str) (fs : filesystem) : Path * filesystem :=
  let transcript_file :=
    {| parent := transcribed_dir self;
       stem := stem video_path ++ lit "_transcript";
       suffix := lit ".txt" |} in
  (transcript_file, <[transcript_file := Text transcript]> fs).

(* ===================================================================== *)
(** * The report *)
(* ===================================================================== *)

Definition INTERVIEWER : str := lit "interviewer".
Definition INTERVIEWEE : str := lit "interviewee".
Definition TECHNICAL : str := lit "technical".
Definition BEHAVIORAL : str := lit "behavioral".

Definition empty_by_speaker : gmap str (list json) :=
  <[INTERVIEWER := []]> (<[INTERVIEWEE := []]> (<[UNKNOWN := []]> ∅)).

Definition empty_by_type : gmap str (list json) :=
  <[TECHNICAL := []]> (<[BEHAVIORAL := []]> (<[GENERAL := []]> ∅)).

(** [buckets[key].append(question)]: a key that is not hashable is a
    [TypeError], a key that is not in the dict is a [KeyError]. *)
Definition bucket_append (buckets : gmap str (list json)) (key : json)
    (question : json) : result (gmap str (list json)) :=
  match key with
  | JStr k =>
      match buckets !! k with
      | Some l => Ok (<[k := l ++ [question]]> buckets)
      | None => Raise KeyError
      end
  | JList _ | JDict _ => Raise TypeError
  | JNull | JBool _ | JInt _ | JFloat _ => Raise KeyError
  end.

(** One iteration of [for question in questions]. *)
Definition categorize (organized_questions : QuestionReport) (question : json)
  : result QuestionReport :=
  let* speaker := dict_get question KEY_SPEAKER (JStr UNKNOWN) in
  let* question_type := dict_get question KEY_TYPE (JStr GENERAL) in
  let* by_speaker' :=
    bucket_append (by_speaker organized_questions) speaker question in
  let* by_type' :=
    bucket_append (by_type organized_questions) question_type question in
  Ok {| video_name := video_name organized_questions;
        total_questions := total_questions organized_questions;
        by_speaker := by_speaker';
        by_type := by_type';
        all_questions := all_questions organized_questions |}.

Fixpoint categorize_all (organized_questions : QuestionReport)
    (questions : list json) : result QuestionReport :=
  match questions with
  | [] => Ok organized_questions
  | question :: questions' =>
      let* organized_questions' := categorize organized_questions question in
      categorize_all organized_questions' questions'
  end.

Definition questions_path (self : VideoProcessor) (video_path : Path) : Path :=
  {| parent := questions_dir self;
     stem := stem video_path ++ lit "_questions";
     suffix := lit ".json" |}.

(** The local [organized_questions] once the loop is over. *)
Definition organize_questions (video_path : Path) (questions : list json)
  : result QuestionReport :=
  categorize_all
    {| video_name := name video_path;
       total_questions := Z.of_nat (length questions);
       by_speaker := empty_by_speaker;
       by_type := empty_by_type;
       all_questions := questions |}
    questions.

Section Persistence.

(** [json.dump(organized_questions, f, ensure_ascii=False, indent=2)] on a
    file opened with [encoding='utf-8']: it returns, or it raises (a
    [UnicodeEncodeError] for a string that holds a lone surrogate, which
    [ensure_ascii=False] hands to the encoder of the file as it is). *)
Variable json_dump : QuestionReport -> result unit.

(** The file is opened only after the loop: when the loop raises, the file
    system is as it was.  [open(questions_file, 'w')] empties the file, so
    a dump that raises leaves a truncated file behind; the exception is not
    caught here. *)
Definition save_questions (self : VideoProcessor) (video_path : Path)
    (questions : list json) (fs : filesystem) : result Path * filesystem :=
  let questions_file := questions_path self video_path in
  match organize_questions video_path questions with
  | Raise e => (Raise e, fs)
  | Ok organized_questions =>
      match json_dump organized_questions with
      | Raise e =>
          (Raise e, <[questions_file := Truncated organized_questions]> fs)
      | Ok _ =>
          (Ok questions_file,
           <[questions_file := Report organized_questions]> fs)
      end
  end.

End Persistence.

(** ** Specification vocabulary for the report *)

(** The sum of the bucket sizes of a grouping. *)
Definition bucket_total (buckets : gmap str (list json)) : nat :=
  map_fold (fun _ l n => (length l + n)%nat) 0%nat buckets.


(** The value under [key] that the bucketing uses, for a dict. *)
Definition field_or (entries : list (str * json)) (key default : str) : json :=
  match assoc entries key with
  | Some v => v
  | None => JStr default
  end.

Definition is_one_of (allowed : list str) (v : json) : bool :=
  match v with
  | JStr s => existsb (str_eqb s) allowed
  | _ => false
  end.

Definition SPEAKERS : list str := [INTERVIEWER; INTERVIEWEE; UNKNOWN].
Definition TYPES : list str := [TECHNICAL; BEHAVIORAL; GENERAL].

(** A question record of the data model: a dict whose speaker and type,
    where present, are in their allow-lists. *)
Definition valid_record (q : json) : bool :=
  match q with
  | JDict entries =>
      is_one_of SPEAKERS (field_or entries KEY_SPEAKER UNKNOWN)
      && is_one_of TYPES (field_or entries KEY_TYPE GENERAL)
  | _ => false
  end.



(** How a grouping relates to the records bucketed so far: its keys are
    the allow-list, its sizes add up to the number of records, a record in
    the bucket of [k] is one of the records and has [k] as its (defaulted)
    field, and every record is in the bucket of its field. *)
Record grouping_inv (key default : str) (allowed : list str)
    (buckets : gmap str (list json)) (seen : list json) : Prop := {
  g_keys : forall s,
    is_Some (buckets !! s) <-> existsb (str_eqb s) allowed = true;
  g_total : bucket_total buckets = length seen;
  g_sound : forall k l q,
    buckets !! k = Some l -> In q l ->
    In q seen
    /\ exists entries, q = JDict entries
                       /\ field_or entries key default = JStr k;
  g_complete : forall q,
    In q seen ->
    exists entries k l,
      q = JDict entries /\ field_or entries key default = JStr k
      /\ buckets !! k = Some l /\ In q l
}.

Definition report_inv (r : QuestionReport) (seen : list json) : Prop :=
  grouping_inv KEY_SPEAKER UNKNOWN SPEAKERS (by_speaker r) seen
  /\ grouping_inv KEY_TYPE GENERAL TYPES (by_type r) seen.


(** What does not change while the records are bucketed. *)
Definition same_header (r r' : QuestionReport) : Prop :=
  video_name r' = video_name r
  /\ total_questions r' = total_questions r
  /\ all_questions r' = all_questions r.

(** Stand-ins for the two collaborators of the transcription. *)
Definition writes_track (video audio : Path) (fs : filesystem)
  : result unit * filesystem :=
  (Ok tt, <[audio := Audio video]> fs).

Definition recognizer_fails (audio : Path) (fs : filesystem) : result str :=
  Raise (OtherException (lit "recognition failed")).

Definition recognizer_says (text : str) (audio : Path) (fs : filesystem)
  : result str :=
  match fs !! audio with
  | Some _ => Ok text
  | None => Raise (OtherException (lit "no such file"))
  end.

(* ===================================================================== *)
(** * Stand-ins for the collaborators, to run the model on examples *)
(* ===================================================================== *)

(** A dump that raises where UTF-8 has no encoding and nowhere else: a
    surrogate code point (U+D800 to U+DFFF) in the video name, in a bucket
    key, or in a key or a string of a record, at any depth.  The theorems
    about the report quantify over every dump; this one instantiates
    them. *)
Definition is_surrogate (c : char) : bool :=
  ((55296 <=? c) && (c <=? 57343))%N.

Definition encodable (s : str) : bool :=
  forallb (fun c => negb (is_surrogate c)) s.

Fixpoint json_encodable (v : json) : bool :=
  match v with
  | JStr s => encodable s
  | JList items => forallb json_encodable items
  | JDict entries =>
      forallb (fun kv => let '(k, v') := kv in
                         encodable k && json_encodable v') entries
  | JNull | JBool _ | JInt _ | JFloat _ => true
  end.

Definition buckets_encodable (buckets : gmap str (list json)) : bool :=
  bool_decide (map_Forall
    (fun k l => encodable k = true /\ forallb json_encodable l = true)
    buckets).

Definition report_encodable (r : QuestionReport) : bool :=
  encodable (video_name r)
  && buckets_encodable (by_speaker r)
  && buckets_encodable (by_type r)
  && forallb json_encodable (all_questions r).

Definition utf8_dump (r : QuestionReport) : result unit :=
  if report_encodable r then Ok tt else Raise UnicodeEncodeError.


(** A decoder for the fragment of JSON that the examples use: arrays,
    objects, strings with the one-character escapes, integers and the three
    literals, with JSON's whitespace between tokens.  On a text of the
    fragment it returns what [json.loads] returns, and it raises
    [JSONDecodeError] where a token of no JSON value starts; a fraction, an
    exponent and a [\u] escape are outside the fragment and are reported as
    such.  The theorems about the extraction quantify over every decoder;
    this one only instantiates them. *)
Module JsonRef.

Definition UNSUPPORTED : exn := OtherException (lit "outside the fragment").

Definition is_ws (c : char) : bool :=
  ((c =? 32) || (c =? 9) || (c =? 10) || (c =? 13))%N.

Fixpoint skip_ws (s : str) : str :=
  match s with
  | c :: s' => if is_ws c then skip_ws s' else s
  | [] => []
  end.

Definition unescape (c : char) : result char :=
  (if c =? 34 then Ok 34 else if c =? 92 then Ok 92
   else if c =? 47 then Ok 47 else if c =? 98 then Ok 8
   else if c =? 102 then Ok 12 else if c =? 110 then Ok 10
   else if c =? 114 then Ok 13 else if c =? 116 then Ok 9
   else if c =? 117 then Raise UNSUPPORTED
   else Raise JSONDecodeError)%N.

(** The characters after an opening quote, up to the closing one. *)
Fixpoint string_body (s : str) : result (str * str) :=
  match s with
  | [] => Raise JSONDecodeError
  | c :: s' =>
      if (c =? 34)%N then Ok ([], s')
      else if (c =? 92)%N then
        match s' with
        | [] => Raise JSONDecodeError
        | e :: s'' =>
            let* d := unescape e in
            let* r := string_body s'' in
            Ok (d :: fst r, snd r)
        end
      else if (c <? 32)%N then Raise JSONDecodeError
      else
        let* r := string_body s' in
        Ok (c :: fst r, snd r)
  end.

Definition is_digit (c : char) : bool := ((48 <=? c) && (c <=? 57))%N.

Fixpoint digits (acc : Z) (s : str) : Z * str :=
  match s with
  | c :: s' =>
      if is_digit c then digits (acc * 10 + (Z.of_N c - 48)) s' else (acc, s)
  | [] => (acc, [])
  end.

(** An optional minus sign, then a zero or a run of digits that does not
    start with a zero; not followed by a fraction or an exponent. *)
Definition integer (s : str) : result (Z * str) :=
  let '(sign, s1) :=
    match s with
    | c :: s' => if (c =? 45)%N then (-1, s') else (1, s)
    | [] => (1, s)
    end in
  match s1 with
  | c :: s2 =>
      if is_digit c then
        let '(n, rest) := if (c =? 48)%N then (0, s2) else digits 0 s1 in
        match rest with
        | d :: _ =>
            if ((d =? 46) || (d =? 101) || (d =? 69))%N
            then Raise UNSUPPORTED else Ok (sign * n, rest)
        | [] => Ok (sign * n, rest)
        end
      else Raise JSONDecodeError
  | [] => Raise JSONDecodeError
  end.

Fixpoint expect (token : str) (s : str) : option str :=
  match token, s with
  | [], _ => Some s
  | t :: token', c :: s' => if (t =? c)%N then expect token' s' else None
  | _ :: _, [] => None
  end.

Fixpoint value (fuel : nat) (s : str) : result (json * str) :=
  match fuel with
  | O => Raise UNSUPPORTED
  | S fuel' =>
      match skip_ws s with
      | [] => Raise JSONDecodeError
      | c :: s' =>
          if (c =? 34)%N then
            let* r := string_body s' in Ok (JStr (fst r), snd r)
          else if (c =? 91)%N then
            match skip_ws s' with
            | d :: s'' =>
                if (d =? 93)%N then Ok (JList [], s'')
                else let* r := elements fuel' s' in Ok (JList (fst r), snd r)
            | [] => Raise JSONDecodeError
            end
          else if (c =? 123)%N then
            match skip_ws s' with
            | d :: s'' =>
                if (d =? 125)%N then Ok (JDict [], s'')
                else let* r := members fuel' [] s' in Ok (JDict (fst r), snd r)
            | [] => Raise JSONDecodeError
            end
          else
            match expect (lit "null") (c :: s'),
                  expect (lit "true") (c :: s'),
                  expect (lit "false") (c :: s') with
            | Some rest, _, _ => Ok (JNull, rest)
            | _, Some rest, _ => Ok (JBool true, rest)
            | _, _, Some rest => Ok (JBool false, rest)
            | None, None, None =>
                let* r := integer (c :: s') in Ok (JInt (fst r), snd r)
            end
      end
  end

with elements (fuel : nat) (s : str) : result (list json * str) :=
  match fuel with
  | O => Raise UNSUPPORTED
  | S fuel' =>
      let* v := value fuel' s in
      match skip_ws (snd v) with
      | c :: rest =>
          if (c =? 44)%N then
            let* r := elements fuel' rest in Ok (fst v :: fst r, snd r)
          else if (c =? 93)%N then Ok ([fst v], rest)
          else Raise JSONDecodeError
      | [] => Raise JSONDecodeError
      end
  end

with members (fuel : nat) (seen : list (str * json)) (s : str)
  : result (list (str * json) * str) :=
  match fuel with
  | O => Raise UNSUPPORTED
  | S fuel' =>
      match skip_ws s with
      | q :: s1 =>
          if (q =? 34)%N then
            let* k := string_body s1 in
            match skip_ws (snd k) with
            | colon :: s2 =>
                if (colon =? 58)%N then
                  let* v := value fuel' s2 in
                  let seen' := dict_set seen (fst k) (fst v) in
                  match skip_ws (snd v) with
                  | c :: rest =>
                      if (c =? 44)%N then members fuel' seen' rest
                      else if (c =? 125)%N then Ok (seen', rest)
                      else Raise JSONDecodeError
                  | [] => Raise JSONDecodeError
                  end
                else Raise JSONDecodeError
            | [] => Raise JSONDecodeError
            end
          else Raise JSONDecodeError
      | [] => Raise JSONDecodeError
      end
  end.

Definition json_loads (s : str) : result json :=
  let* r := value (2 * length s + 2) s in
  match skip_ws (snd r) with
  | [] => Ok (fst r)
  | _ :: _ => Raise JSONDecodeError
  end.

End JsonRef.

(** A language model that gives the same answer to every prompt; its state
    counts the calls. *)
Definition answering (response : str) (model prompt : str) (calls : nat)
  : result str * nat :=
  (Ok response, S calls).

(** A language model whose call number [k] fails (calls count from 0). *)
Definition failing_at (k : nat) (response : str) (model prompt : str)
    (calls : nat) : result str * nat :=
  (if Nat.eqb calls k
   then Raise (OtherException (lit "connection refused"))
   else Ok response,
   S calls).

(** A response that wraps a one-record array in prose; the record has
    neither speaker nor type. *)
Definition SAMPLE_RESPONSE : str :=
  lit "Here you go: [{" ++ quoted "question" ++ lit ": "
    ++ quoted "Why is the build slow?" ++ lit "}] Done.".

Definition SAMPLE_RECORD : json :=
  JDict [(KEY_QUESTION, JStr (lit "Why is the build slow?"))].


(** A response whose bracket span is no JSON, in front of a question. *)
Definition TAGGED_RESPONSE : str :=
  lit "[Q1] What is your experience with Python?".

Definition SAMPLE_VIDEO : Path :=
  {| parent := lit "/videos"; stem := lit "talk"; suffix := lit ".mp4" |}.

(** Two records in the shape of the repository's test of [save_questions]. *)
Definition TEST_QUESTIONS : list json :=
  [JDict [(KEY_QUESTION, JStr (lit "What is your experience with Python?"));
          (KEY_SPEAKER, JStr INTERVIEWER); (KEY_TYPE, JStr TECHNICAL)];
   JDict [(KEY_QUESTION, JStr (lit "Tell me about yourself"));
          (KEY_SPEAKER, JStr INTERVIEWER); (KEY_TYPE, JStr GENERAL)]].




Definition ESCAPED_VIDEO : Path :=
  {| parent := lit "/videos"; stem := lit "caf" ++ [56553%N];
     suffix := lit ".mp4" |}.

(* ===================================================================== *)
(** * The chunker as a grouping of the words *)
(* ===================================================================== *)

(** The groups the loop of [chunk_text] closes when it runs on [ws] with
    [cur] as its current chunk: the same test, on the words instead of on
    the running length. *)
Fixpoint groups_from (B : Z) (cur : list str) (ws : list str)
  : list (list str) :=
  match ws with
  | [] => if truthy cur then [cur] else []
  | w :: ws' =>
      if bool_decide (cost cur + (len w + 1) > B) && truthy cur
      then cur :: groups_from B [w] ws'
      else groups_from B (cur ++ [w]) ws'
  end.

(** Each group is closed because the first word of the next one did not
    fit: with that word and its separator the running length would exceed
    the budget. *)
Fixpoint tight (B : Z) (gs : list (list str)) : Prop :=
  match gs with
  | [] => True
  | g :: rest =>
      match rest with
      | [] => True
      | [] :: _ => False
      | (w :: _) :: _ => cost g + (len w + 1) > B
      end
      /\ tight B rest
  end.

(* ===================================================================== *)
(** * Reading records back *)
(* ===================================================================== *)

(** [q['question']] where it is a string, for reading parsed records. *)
Definition question_of (q : json) : str :=
  match q with
  | JDict entries =>
      match assoc entries KEY_QUESTION with
      | Some (JStr s) => s
      | _ => []
      end
  | _ => []
  end.

(** The (defaulted) field of a record is the string [k]. *)
Definition has_field (key default k : str) (q : json) : bool :=
  match q with
  | JDict entries =>
      match field_or entries key default with
      | JStr s => str_eqb s k
      | _ => false
      end
  | _ => false
  end.

(** A grouping holds, under each key of the allow-list, the records seen so
    far whose field is that key, in the order they came; it has no other
    key. *)
Definition grouping_is_filter (key default : str) (allowed : list str)
    (buckets : gmap str (list json)) (seen : list json) : Prop :=
  forall k,
    buckets !! k
    = if existsb (str_eqb k) allowed
      then Some (List.filter (has_field key default k) seen)
      else None.

(** A language model without state that answers every prompt through
    [answer]. *)
Definition stateless_model (answer : str -> result str)
    (model prompt : str) (w : unit) : result str * unit :=
  (answer prompt, w).

(* ===================================================================== *)
(** * Discovery *)
(* ===================================================================== *)

(** One entry of [working_dir.iterdir()]: the final component, split as
    [pathlib] splits it, and whether [is_file()] holds. *)
Record DirEntry := {
  entry_stem : str;
  entry_suffix : str;
  entry_is_file : bool
}.

Definition SUPPORTED_EXTENSIONS : list str :=
  [lit ".mp4"; lit ".avi"; lit ".mov"; lit ".mkv"; lit ".wmv"; lit ".flv";
   lit ".webm"; lit ".m4v"; lit ".3gp"; lit ".ogv"].

(** [a <= b] on strings: by code points, a prefix first. *)
Fixpoint str_leb (a b : str) : bool :=
  match a, b with
  | [], _ => true
  | _ :: _, [] => false
  | x :: a', y :: b' =>
      if (x <? y)%N then true
      else if (x =? y)%N then str_leb a' b'
      else false
  end.

(** The order of two paths of one directory: the order of their names. *)
Definition path_leb (p q : Path) : bool := str_leb (name p) (name q).

Fixpoint insert_sorted (p : Path) (l : list Path) : list Path :=
  match l with
  | [] => [p]
  | q :: l' => if path_leb p q then p :: l else q :: insert_sorted p l'
  end.

(** [sorted(l)] on paths of one directory: a stable sort. *)
Fixpoint sorted (l : list Path) : list Path :=
  match l with
  | [] => []
  | p :: l' => insert_sorted p (sorted l')
  end.

(** The order of the names, as a relation on paths. *)
Definition path_le (p q : Path) : Prop := path_leb p q = true.

Section Discovery.

(** [str.lower]. *)
Variable lower : str -> str.

Definition entry_path (working_dir : str) (e : DirEntry) : Path :=
  {| parent := working_dir; stem := entry_stem e; suffix := entry_suffix e |}.

(** The test of the loop of [find_video_files]. *)
Definition is_video (e : DirEntry) : bool :=
  entry_is_file e
  && existsb (str_eqb (lower (entry_suffix e))) SUPPORTED_EXTENSIONS.

Definition find_video_files (working_dir : str) (listing : list DirEntry)
  : list Path :=
  let video_files :=
    List.map (entry_path working_dir) (List.filter is_video listing) in
  sorted video_files.

End Discovery.

(** Lower-casing of the ASCII letters, to run the discovery on examples. *)
Definition ascii_lower (s : str) : str :=
  List.map (fun c => if ((65 <=? c) && (c <=? 90))%N then (c + 32)%N else c) s.

(** The directory of the repository's discovery test, and a sub-directory
    whose name ends like a video. *)
Definition TEST_LISTING : list DirEntry :=
  [ {| entry_stem := lit "video3"; entry_suffix := lit ".mov";
       entry_is_file := true |};
    {| entry_stem := lit "not_video"; entry_suffix := lit ".txt";
       entry_is_file := true |};
    {| entry_stem := lit "video1"; entry_suffix := lit ".MP4";
       entry_is_file := true |};
    {| entry_stem := lit "clips"; entry_suffix := lit ".mp4";
       entry_is_file := false |};
    {| entry_stem := lit "video2"; entry_suffix := lit ".avi";
       entry_is_file := true |} ].

(* ===================================================================== *)
(** * Processing a video, and all videos *)
(* ===================================================================== *)

Section Pipeline.

Context {World : Type}.
Variable extract_audio : Path -> Path -> filesystem -> result unit * filesystem.
Variable whisper_transcribe : Path -> filesystem -> result str.
Variable ollama_generate : str -> str -> World -> result str * World.
Variable json_loads : str -> result json.
Variable json_dump : QuestionReport -> result unit.
Variable lower : str -> str.

Definition process_video (self : VideoProcessor) (video_path : Path)
    (fs : filesystem) (w : World)
  : result (Path * Path) * filesystem * World :=
  match transcribe_video extract_audio whisper_transcribe video_path fs with
  | (Raise e, fs1) => (Raise e, fs1, w)               (* except: log, raise *)
  | (Ok transcript, fs1) =>
      let '(transcript_file, fs2) :=
        save_transcript self video_path transcript fs1 in
      let '(questions, w1) :=
        generate_questions ollama_generate json_loads self transcript w in
      match save_questions json_dump self video_path questions fs2 with
      | (Raise e, fs3) => (Raise e, fs3, w1)          (* except: log, raise *)
      | (Ok questions_file, fs3) =>
          (Ok (transcript_file, questions_file), fs3, w1)
      end
  end.

(** The loop of [process_all_videos]: an exception of one video is logged
    and the loop continues. *)
Fixpoint process_each (self : VideoProcessor) (video_files : list Path)
    (fs : filesystem) (w : World) : filesystem * World :=
  match video_files with
  | [] => (fs, w)
  | video_file :: rest =>
      let '(_, fs', w') := process_video self video_file fs w in
      process_each self rest fs' w'
  end.

Definition process_all_videos (self : VideoProcessor) (working_dir : str)
    (listing : list DirEntry) (fs : filesystem) (w : World)
  : filesystem * World :=
  let video_files := find_video_files lower working_dir listing in
  if truthy video_files
  then process_each self video_files fs w
  else (fs, w).

End Pipeline.

(** The three paths a run of [process_video] may write or remove. *)
Definition transcript_path (self : VideoProcessor) (video_path : Path) : Path :=
  {| parent := transcribed_dir self;
     stem := stem video_path ++ lit "_transcript";
     suffix := lit ".txt" |}.

Definition scratch_path (video_path : Path) : Path :=
  with_suffix video_path (lit ".wav").

(** The name of the file that the handler of the module's logger appends
    to, in the directory the program was started in.  The log lines are
    not part of the model: the frame theorems are stated for the files
    with another name. *)
Definition LOG_NAME : str := lit "video_processor.log".

(** An extractor that leaves every file but the audio file alone. *)
Definition writes_only_audio
    (extract_audio : Path -> Path -> filesystem -> result unit * filesystem)
  : Prop :=
  forall video audio fs p,
    p <> audio -> snd (extract_audio video audio fs) !! p = fs !! p.

(* ===================================================================== *)
(** * Start-up: the model check *)
(* ===================================================================== *)

(** [for x in v]: a list gives its items, a string its characters, a dict
    its keys; nothing else can be iterated. *)
Definition iterate (v : json) : result (list json) :=
  match v with
  | JList items => Ok items
  | JStr s => Ok (List.map (fun c => JStr [c]) s)
  | JDict entries => Ok (List.map (fun kv => JStr (fst kv)) entries)
  | JNull | JBool _ | JInt _ | JFloat _ => Raise TypeError
  end.

(** [v[key]] for a string key: only a dict can be read that way. *)
Definition subscript (v : json) (key : str) : result json :=
  match v with
  | JDict entries =>
      match assoc entries key with
      | Some x => Ok x
      | None => Raise KeyError
      end
  | _ => Raise TypeError
  end.

Fixpoint collect {A B} (f : A -> result B) (l : list A) : result (list B) :=
  match l with
  | [] => Ok []
  | x :: l' =>
      let* y := f x in
      let* ys := collect f l' in
      Ok (y :: ys)
  end.

(** [[model['name'] for model in models.get('models', [])]]. *)
Definition model_names (models : json) : result (list json) :=
  let* listed := dict_get models (lit "models") (JList []) in
  let* items := iterate listed in
  collect (fun model => subscript model (lit "name")) items.

(** [v == s] for a string [s]. *)
Definition is_string (s : str) (v : json) : bool :=
  match v with
  | JStr s' => str_eqb s' s
  | _ => false
  end.

(** The [RuntimeError] of [_check_ollama_model], by its message. *)
Definition INIT_ERROR (self : VideoProcessor) : exn :=
  OtherException
    (lit "Failed to initialize Ollama model " ++ OLLAMA_MODEL self
       ++ lit ". Please ensure Ollama is installed and running.").

Section Startup.

Context {World : Type}.

(** [ollama.list()] and [ollama.pull(model)]. *)
Variable ollama_list : World -> result json * World.
Variable ollama_pull : str -> World -> result unit * World.

(** The body of the [try]. *)
Definition check_ollama_model_body (self : VideoProcessor) (w : World)
  : result unit * World :=
  match ollama_list w with
  | (Raise e, w1) => (Raise e, w1)
  | (Ok models, w1) =>
      match model_names models with
      | Raise e => (Raise e, w1)
      | Ok names =>
          if negb (existsb (is_string (OLLAMA_MODEL self)) names)
          then ollama_pull (OLLAMA_MODEL self) w1
          else (Ok tt, w1)
      end
  end.

Definition _check_ollama_model (self : VideoProcessor) (w : World)
  : result unit * World :=
  match check_ollama_model_body self w with
  | (Ok u, w') => (Ok u, w')
  | (Raise _, w') => (Raise (INIT_ERROR self), w')    (* except Exception *)
  end.

End Startup.

(** An [ollama.list()] that answers [models], and pulls that succeed or
    fail; the state is the list of the models pulled so far. *)
Definition lists (models : json) (pulled : list str)
  : result json * list str :=
  (Ok models, pulled).

Definition pull_ok (model : str) (pulled : list str)
  : result unit * list str :=
  (Ok tt, pulled ++ [model]).

Definition TEST_MODELS : json :=
  JDict [(lit "models", JList [JDict [(lit "name", JStr (lit "llama3.1:8b"))]])].



(** Runs of [process_video] on the sample video in an empty file system:
    with a model that answers, with one that invents a speaker, with one
    that is down. *)
Definition SAMPLE_RUN : result (Path * Path) * filesystem * nat :=
  process_video writes_track (recognizer_says (lit " Why is the build slow? "))
    (answering SAMPLE_RESPONSE) JsonRef.json_loads utf8_dump
    default_processor SAMPLE_VIDEO ∅ 0%nat.




(** A recogniser that fails on the audio of one video and recognises
    [text] on every other. *)
Definition recognizer_fails_on (bad : Path) (text : str) (audio : Path)
    (fs : filesystem) : result str :=
  if bool_decide (audio = scratch_path bad)
  then Raise (OtherException (lit "recognition failed"))
  else recognizer_says text audio fs.

(** The three videos of [TEST_LISTING], in the order of their names. *)
Definition VIDEO1 : Path :=
  {| parent := lit "/videos"; stem := lit "video1"; suffix := lit ".MP4" |}.
Definition VIDEO2 : Path :=
  {| parent := lit "/videos"; stem := lit "video2"; suffix := lit ".avi" |}.
Definition VIDEO3 : Path :=
  {| parent := lit "/videos"; stem := lit "video3"; suffix := lit ".mov" |}.

(** The pipeline on the test directory, with a recogniser that fails on the
    second video. *)
Definition batch_video : VideoProcessor -> Path -> filesystem -> nat ->
                         result (Path * Path) * filesystem * nat :=
  process_video writes_track
    (recognizer_fails_on VIDEO2 (lit " Why is the build slow? "))
    (answering SAMPLE_RESPONSE) JsonRef.json_loads utf8_dump.

Definition batch_each : VideoProcessor -> list Path -> filesystem -> nat ->
                        filesystem * nat :=
  process_each writes_track
    (recognizer_fails_on VIDEO2 (lit " Why is the build slow? "))
    (answering SAMPLE_RESPONSE) JsonRef.json_loads utf8_dump.

Definition batch_all : VideoProcessor -> str -> list DirEntry ->
                       filesystem -> nat -> filesystem * nat :=
  process_all_videos writes_track
    (recognizer_fails_on VIDEO2 (lit " Why is the build slow? "))
    (answering SAMPLE_RESPONSE) JsonRef.json_loads utf8_dump ascii_lower.

(** A listing without the [models] key, and one with an entry that has no
    [name]. *)
Definition STATUS_ONLY : list (str * json) :=
  [(lit "status", JStr (lit "ok"))].

Definition UNNAMED_ENTRY : list (str * json) :=
  [(lit "models",
    JList [JDict [(lit "name", JStr (lit "llama3.1:8b"))];
           JDict [(lit "model", JStr (lit "mistral:7b"))]])].

(* ===================================================================== *)
(** * The setup script *)
(* ===================================================================== *)

(** [setup.py].  What the script prints is left out, as the log lines of
    the processor are; the files it reads and writes are text files. *)
Module Setup.

(** What the script asks the interpreter and the platform. *)
Record Env := {
  version_major : Z;
  version_minor : Z;
  system : str;         (* platform.system() *)
  executable : str      (* sys.executable *)
}.

(** The first argument of [subprocess.run]: a line for the shell, or an
    argument vector. *)
Inductive command :=
| Shell (line : str)
| Argv (args : list str).

(** What [subprocess.run(..., check=True)] can raise. *)
Inductive run_error :=
| CalledProcessError (stderr : str)
| FileNotFoundError
| OtherError (e : exn).

Inductive outcome (A : Type) :=
| Returns (a : A)
| Raises (e : run_error).

Arguments Returns {A} a.
Arguments Raises {A} e.

(** How the script ends: [sys.exit(status)], the end of [main] (status 0),
    or an exception that nothing catches. *)
Inductive ending :=
| Exit (status : Z)
| Uncaught (e : run_error).

Abbreviation textfiles := (gmap Path str).

Definition DARWIN : str := lit "Darwin".

Definition REQUIREMENTS : Path :=
  {| parent := []; stem := lit "requirements"; suffix := lit ".txt" |}.
Definition CONFIG_TEMPLATE : Path :=
  {| parent := []; stem := lit "config_template"; suffix := lit ".py" |}.
Definition CONFIG_FILE : Path :=
  {| parent := []; stem := lit "config"; suffix := lit ".py" |}.

Definition check_python_version (env : Env) : bool :=
  if (version_major env <? 3)
     || ((version_major env =? 3) && (version_minor env <? 8))
  then false
  else true.

Definition check_platform (env : Env) : bool :=
  if str_eqb (system env) DARWIN then true else true.

Section Commands.

Context {World : Type}.
Variable subprocess_run : command -> World -> outcome unit * World.

(** [Path.read_text()] and [Path.write_text(text)]: each returns or
    raises; a write that raises leaves the files as it got to. *)
Variable read_text : Path -> textfiles -> outcome str.
Variable write_text : Path -> str -> textfiles -> outcome unit * textfiles.

(** [config_file.exists()], then [config_template.exists()], then the copy
    inside [try]: the template is read twice, the result of
    [.replace(...)] on the first read is dropped, so what the second read
    returns is written as it is; [except Exception] turns an exception of
    a read or of the write into [False]. *)
Definition create_config (fs : textfiles) : bool * textfiles :=
  match fs !! CONFIG_FILE with
  | Some _ => (true, fs)
  | None =>
      match fs !! CONFIG_TEMPLATE with
      | None => (false, fs)
      | Some _ =>
          match read_text CONFIG_TEMPLATE fs with
          | Raises _ => (false, fs)
          | Returns _ =>
              match read_text CONFIG_TEMPLATE fs with
              | Raises _ => (false, fs)
              | Returns text =>
                  match write_text CONFIG_FILE text fs with
                  | (Raises _, fs') => (false, fs')
                  | (Returns _, fs') => (true, fs')
                  end
              end
          end
      end
  end.

Definition run_command (command : str) (description : str) (critical : bool)
    (w : World) : outcome bool * World :=
  match subprocess_run (Shell command) w with
  | (Returns _, w') => (Returns true, w')
  | (Raises (CalledProcessError _), w') =>
      (Returns (if critical then false else true), w')
  | (Raises e, w') => (Raises e, w')
  end.

Definition install_python_dependencies (env : Env) (fs : textfiles)
    (w : World) : outcome bool * World :=
  match fs !! REQUIREMENTS with
  | None => (Returns false, w)
  | Some _ =>
      run_command
        (executable env ++ lit " -m pip install -r requirements.txt")
        (lit "Installing Python dependencies") true w
  end.

Definition check_homebrew (env : Env) (w : World) : outcome bool * World :=
  if negb (str_eqb (system env) DARWIN) then (Returns true, w)
  else
    match subprocess_run (Argv [lit "brew"; lit "--version"]) w with
    | (Returns _, w') => (Returns true, w')
    | (Raises (CalledProcessError _), w') => (Returns false, w')
    | (Raises FileNotFoundError, w') => (Returns false, w')
    | (Raises e, w') => (Raises e, w')
    end.

Definition install_system_dependencies (env : Env) (w : World)
  : outcome bool * World :=
  if negb (str_eqb (system env) DARWIN) then (Returns true, w)
  else
    let success := true in
    match run_command (lit "brew install ffmpeg") (lit "Installing ffmpeg")
            false w with
    | (Raises e, w1) => (Raises e, w1)
    | (Returns ffmpeg, w1) =>
        let success := success && ffmpeg in
        match run_command (lit "brew install ollama")
                (lit "Installing Ollama") false w1 with
        | (Raises e, w2) => (Raises e, w2)
        | (Returns ollama, w2) => (Returns (success && ollama), w2)
        end
    end.

Definition setup_ollama (w : World) : outcome bool * World :=
  match subprocess_run (Argv [lit "ollama"; lit "list"]) w with
  | (Raises (CalledProcessError _), w1) => (Returns false, w1)
  | (Raises FileNotFoundError, w1) => (Returns false, w1)
  | (Raises e, w1) => (Raises e, w1)
  | (Returns _, w1) =>
      run_command (lit "ollama pull llama3.1:8b")
        (lit "Downloading Ollama model (this may take a while)") false w1
  end.

Definition IMPORT_TEST : str :=
  lit "import whisper; import ollama; import moviepy; print('"
    ++ [9989%N] ++ lit " All imports successful')".

Definition run_basic_test (env : Env) (w : World) : outcome bool * World :=
  match subprocess_run (Argv [executable env; lit "-c"; IMPORT_TEST]) w with
  | (Raises (CalledProcessError _), w1) => (Returns false, w1)
  | (Raises e, w1) => (Raises e, w1)
  | (Returns _, w1) =>
      match subprocess_run
              (Argv [executable env; lit "-m"; lit "py_compile";
                     lit "video_processor.py"]) w1 with
      | (Raises (CalledProcessError _), w2) => (Returns false, w2)
      | (Raises e, w2) => (Raises e, w2)
      | (Returns _, w2) => (Returns true, w2)
      end
  end.

Definition main (env : Env) (fs : textfiles) (w : World)
  : ending * textfiles * World :=
  let success := true in
  let success := success && check_python_version env in
  let success := success && check_platform env in
  if negb success then (Exit 1, fs, w)
  else
    match (if str_eqb (system env) DARWIN
           then check_homebrew env w
           else (Returns true, w)) with
    | (Raises e, w1) => (Uncaught e, fs, w1)
    | (Returns false, w1) => (Exit 1, fs, w1)
    | (Returns true, w1) =>
        match install_python_dependencies env fs w1 with
        | (Raises e, w2) => (Uncaught e, fs, w2)
        | (Returns python, w2) =>
            let success := success && python in
            match install_system_dependencies env w2 with
            | (Raises e, w3) => (Uncaught e, fs, w3)
            | (Returns packages, w3) =>
                let success := success && packages in
                match setup_ollama w3 with
                | (Raises e, w4) => (Uncaught e, fs, w4)
                | (Returns model, w4) =>
                    let success := success && model in
                    let '(_, fs') := create_config fs in
                    if success then
                      match run_basic_test env w4 with
                      | (Raises e, w5) => (Uncaught e, fs', w5)
                      | (Returns _, w5) => (Exit 0, fs', w5)
                      end
                    else (Exit 0, fs', w4)
                end
            end
        end
    end.

End Commands.

(** A file system that reads what a file holds and writes what it is
    given, and one where reading is refused, one where writing is. *)
Definition read_plain (p : Path) (fs : textfiles) : outcome str :=
  match fs !! p with
  | Some text => Returns text
  | None => Raises FileNotFoundError
  end.

Definition write_plain (p : Path) (text : str) (fs : textfiles)
  : outcome unit * textfiles :=
  (Returns tt, <[p := text]> fs).

Definition read_denied (p : Path) (fs : textfiles) : outcome str :=
  Raises (OtherError (OtherException (lit "Permission denied"))).

Definition write_denied (p : Path) (text : str) (fs : textfiles)
  : outcome unit * textfiles :=
  (Raises (OtherError (OtherException (lit "Permission denied"))), fs).

(** A write that returns has put the text in the file and touched no
    other. *)
Definition writes_as_asked
    (write_text : Path -> str -> textfiles -> outcome unit * textfiles)
  : Prop :=
  forall p text fs u fs',
    write_text p text fs = (Returns u, fs') -> fs' = <[p := text]> fs.

(** A machine where every command fails with [CalledProcessError]; the
    state counts the commands run. *)
Definition all_commands_fail (c : command) (n : nat) : outcome unit * nat :=
  (Raises (CalledProcessError (lit "command failed")), S n).

(** A machine where [brew] and [ollama] are not installed and every other
    command returns. *)
Definition starts_with (prefix : str) (c : command) : bool :=
  match c with
  | Argv (program :: _) => str_eqb program prefix
  | _ => false
  end.

Definition nothing_installed (c : command) (n : nat) : outcome unit * nat :=
  if starts_with (lit "brew") c || starts_with (lit "ollama") c
  then (Raises FileNotFoundError, S n)
  else
    match c with
    | Shell _ => (Raises (CalledProcessError (lit "not found")), S n)
    | Argv _ => (Returns tt, S n)
    end.

Definition MAC : Env :=
  {| version_major := 3; version_minor := 11; system := DARWIN;
     executable := lit "/usr/bin/python3" |}.

Definition LINUX : Env :=
  {| version_major := 3; version_minor := 11; system := lit "Linux";
     executable := lit "/usr/bin/python3" |}.

End Setup.

(** Every command either returns or fails with [CalledProcessError]. *)
Definition fails_cleanly {World : Type}
    (subprocess_run : Setup.command -> World -> Setup.outcome unit * World)
  : Prop :=
  forall c w,
    (exists u, fst (subprocess_run c w) = Setup.Returns u)
    \/ (exists err,
          fst (subprocess_run c w)
          = Setup.Raises (Setup.CalledProcessError err)).

Section SetupSpec.

Import Setup.

Context {World : Type}.
Variable subprocess_run : command -> World -> outcome unit * World.
Variable read_text : Path -> textfiles -> outcome str.
Variable write_text : Path -> str -> textfiles -> outcome unit * textfiles.

(** The part of [main] after the two checks of its start. *)
Definition main_after_checks (env : Env) (fs : textfiles) (w1 : World)
  : ending * textfiles * World :=
  match install_python_dependencies subprocess_run env fs w1 with
  | (Raises e, w2) => (Uncaught e, fs, w2)
  | (Returns python, w2) =>
      match install_system_dependencies subprocess_run env w2 with
      | (Raises e, w3) => (Uncaught e, fs, w3)
      | (Returns packages, w3) =>
          match setup_ollama subprocess_run w3 with
          | (Raises e, w4) => (Uncaught e, fs, w4)
          | (Returns model, w4) =>
              if python && packages && model then
                match run_basic_test subprocess_run env w4 with
                | (Raises e, w5) => (Uncaught e, (create_config read_text write_text fs).2, w5)
                | (Returns _, w5) => (Exit 0, (create_config read_text write_text fs).2, w5)
                end
              else (Exit 0, (create_config read_text write_text fs).2, w4)
          end
      end
  end.

End SetupSpec.
(* ===================================================================== *)
(** * Properties of the string operations *)
(* ===================================================================== *)

Section PyStrFacts.


Lemma rev_nonempty {A} (l : list A) : l <> [] -> rev l <> [].
Proof.
  destruct l as [|a l]; [congruence|]. simpl. intros _ H.
  apply app_eq_nil in H. destruct H; discriminate.
Qed.

Lemma nonspace_rev w : nonspace w -> nonspace (rev w).
Proof. unfold nonspace. intros H. apply Forall_rev. exact H. Qed.

Lemma split_go_words s : forall cur, nonspace cur -> Forall word (split_go cur s).
Proof.
  induction s as [|c s IH]; intros cur Hcur; simpl.
  - destruct cur as [|d cur]; constructor; [|constructor].
    split; [apply rev_nonempty; congruence | apply nonspace_rev; exact Hcur].
  - destruct (isspace c) eqn:Ec.
    + destruct cur as [|d cur].
      * apply IH. constructor.
      * constructor; [|apply IH; constructor].
        split; [apply rev_nonempty; congruence | apply nonspace_rev; exact Hcur].
    + apply IH. constructor; assumption.
Qed.

Lemma split_words s : Forall word (split s).
Proof. apply split_go_words. constructor. Qed.

Lemma split_go_word w : forall cur s,
  nonspace w -> split_go cur (w ++ s) = split_go (rev w ++ cur) s.
Proof.
  induction w as [|c w IH]; intros cur s Hw; [reflexivity|].
  inversion Hw as [|? ? Hc Hw']; subst. simpl. rewrite Hc.
  rewrite IH by assumption. rewrite <- app_assoc. reflexivity.
Qed.

Lemma split_go_flush w : w <> [] ->
  forall s, split_go (rev w) (SPACE :: s) = w :: split_go [] s.
Proof.
  intros Hw s. simpl. change (isspace SPACE) with true. cbv iota.
  destruct (rev w) eqn:Er.
  - exfalso. apply (rev_nonempty w Hw). exact Er.
  - rewrite <- Er, rev_involutive. reflexivity.
Qed.

Lemma split_single w : word w -> split w = [w].
Proof.
  intros [Hne Hns]. unfold split.
  rewrite <- (app_nil_r w) at 1. rewrite split_go_word by assumption.
  rewrite app_nil_r. simpl. destruct (rev w) eqn:Er.
  - exfalso. apply (rev_nonempty w Hne). exact Er.
  - rewrite <- Er, rev_involutive. reflexivity.
Qed.

(** Splitting a space-joined list of words gives the words back. *)
Lemma split_join ws : Forall word ws -> split (join [SPACE] ws) = ws.
Proof.
  induction ws as [|w ws IH]; intros H; [reflexivity|].
  inversion H as [|? ? Hw Hws]; subst. simpl.
  destruct ws as [|w' ws'].
  - apply split_single. exact Hw.
  - unfold split. destruct Hw as [Hne Hns].
    rewrite split_go_word by assumption. rewrite app_nil_r.
    change ([SPACE] ++ join [SPACE] (w' :: ws'))
      with (SPACE :: join [SPACE] (w' :: ws')).
    rewrite split_go_flush by assumption.
    f_equal. apply IH. exact Hws.
Qed.

Lemma join_cons sep x l :
  l <> [] -> join sep (x :: l) = x ++ sep ++ join sep l.
Proof. destruct l; [congruence | reflexivity]. Qed.

Lemma join_app sep l1 l2 :
  l1 <> [] -> l2 <> [] ->
  join sep (l1 ++ l2) = join sep l1 ++ sep ++ join sep l2.
Proof.
  induction l1 as [|x l1 IH]; intros H1 H2; [congruence|].
  destruct l1 as [|y l1].
  - simpl app. rewrite join_cons by assumption. reflexivity.
  - change ((x :: y :: l1) ++ l2) with (x :: ((y :: l1) ++ l2)).
    rewrite join_cons by (simpl; congruence).
    rewrite IH by (assumption || congruence).
    rewrite (join_cons sep x (y :: l1)) by congruence.
    rewrite <- !app_assoc. reflexivity.
Qed.

(** Joining the joined groups is joining all their words. *)
Lemma join_concat sep (gs : list (list str)) :
  Forall (fun g => g <> []) gs ->
  join sep (List.map (join sep) gs) = join sep (concat gs).
Proof.
  induction gs as [|g gs IH]; intros H; [reflexivity|].
  inversion H as [|? ? Hg Hgs]; subst.
  destruct gs as [|g' gs'].
  - simpl. rewrite app_nil_r. reflexivity.
  - change (List.map (join sep) (g :: g' :: gs'))
      with (join sep g :: List.map (join sep) (g' :: gs')).
    rewrite join_cons by (simpl; congruence).
    rewrite IH by assumption.
    change (concat (g :: g' :: gs')) with (g ++ concat (g' :: gs')).
    rewrite join_app; [reflexivity | assumption |].
    inversion Hgs; subst. simpl. destruct g'; [congruence | discriminate].
Qed.

End PyStrFacts.

(* ===================================================================== *)
(** * The chunker's loop invariant *)
(* ===================================================================== *)

Section ChunkerFacts.

Variable B : Z.  (* chars_per_chunk *)

Lemma len_nonneg s : 0 <= len s.
Proof. unfold len. lia. Qed.

Lemma cost_nonneg ws : 0 <= cost ws.
Proof. induction ws as [|w ws IH]; simpl; [lia|]. pose proof (len_nonneg w). lia. Qed.

Lemma cost_app ws1 ws2 : cost (ws1 ++ ws2) = cost ws1 + cost ws2.
Proof. induction ws1 as [|w ws1 IH]; simpl; lia. Qed.

Lemma len_app s1 s2 : len (s1 ++ s2) = len s1 + len s2.
Proof. unfold len. rewrite length_app. lia. Qed.

Lemma len_join ws : ws <> [] -> len (join [SPACE] ws) = cost ws - 1.
Proof.
  induction ws as [|w ws IH]; intros H; [congruence|].
  destruct ws as [|w' ws'].
  - simpl. lia.
  - rewrite join_cons by congruence. rewrite !len_app, IH by congruence.
    change (len [SPACE]) with 1. simpl cost. lia.
Qed.

Lemma truthy_true {A} (l : list A) : truthy l = true <-> l <> [].
Proof. destruct l; simpl; split; congruence. Qed.

Lemma concat_snoc {A} (gs : list (list A)) g : concat (gs ++ [g]) = concat gs ++ g.
Proof. rewrite concat_app. simpl. rewrite app_nil_r. reflexivity. Qed.

Lemma chunk_step_inv seen st gs w :
  chunk_inv B seen st gs ->
  exists gs', chunk_inv B (seen ++ [w]) (chunk_step B st w) gs'.
Proof.
  intros [Hc Hs Hl Hg Hcur]. unfold chunk_step.
  destruct (bool_decide (current_length st + (len w + 1) > B)
            && truthy (current_chunk st)) eqn:Hcond.
  - apply andb_prop in Hcond. destruct Hcond as [_ Hne].
    apply truthy_true in Hne.
    exists (gs ++ [current_chunk st]). constructor; simpl.
    + rewrite Hc, List.map_app. reflexivity.
    + rewrite concat_snoc, Hs. reflexivity.
    + lia.
    + apply Forall_app. split; [exact Hg|]. constructor; [|constructor].
      destruct Hcur; [contradiction | assumption].
    + right. split; [congruence|]. right. exists w. reflexivity.
  - exists gs. constructor; simpl.
    + exact Hc.
    + rewrite app_assoc, Hs. reflexivity.
    + rewrite cost_app, Hl. simpl. lia.
    + exact Hg.
    + right. split.
      * intros H. apply app_eq_nil in H. destruct H; discriminate.
      * apply andb_false_iff in Hcond. destruct Hcond as [Hle | Hemp].
        -- left. apply bool_decide_eq_false in Hle.
           rewrite cost_app. simpl. lia.
        -- right. exists w. destruct (current_chunk st); [reflexivity|discriminate].
Qed.

Lemma chunk_run_inv ws :
  exists gs, chunk_inv B ws (fold_left (chunk_step B) ws chunk_init) gs.
Proof.
  induction ws as [|w ws IH] using rev_ind.
  - exists []. constructor; simpl; auto.
  - destruct IH as [gs IH]. rewrite fold_left_app. simpl.
    eapply chunk_step_inv. exact IH.
Qed.

(** The chunks are the joins of consecutive groups of the words. *)
Lemma chunk_finish_groups ws :
  exists gs,
    chunk_finish (fold_left (chunk_step B) ws chunk_init)
      = List.map (join [SPACE]) gs
    /\ concat gs = ws /\ Forall (packed B) gs.
Proof.
  destruct (chunk_run_inv ws) as [gs [Hc Hs Hl Hg Hcur]].
  unfold chunk_finish.
  destruct (truthy (current_chunk _)) eqn:Ht.
  - exists (gs ++ [current_chunk (fold_left (chunk_step B) ws chunk_init)]).
    apply truthy_true in Ht. repeat split.
    + rewrite Hc, List.map_app. reflexivity.
    + rewrite concat_snoc. exact Hs.
    + apply Forall_app. split; [exact Hg|]. constructor; [|constructor].
      destruct Hcur; [contradiction | assumption].
  - exists gs. repeat split; try assumption.
    destruct (current_chunk _); [|discriminate].
    rewrite app_nil_r in Hs. exact Hs.
Qed.

(** A text that fits is never flushed: the loop only accumulates. *)
Lemma chunk_run_fits ws :
  cost ws <= B ->
  fold_left (chunk_step B) ws chunk_init
    = {| chunks := []; current_chunk := ws; current_length := cost ws |}.
Proof.
  induction ws as [|w ws IH] using rev_ind; intros Hfit; [reflexivity|].
  rewrite fold_left_app. simpl. rewrite cost_app in Hfit. simpl in Hfit.
  pose proof (len_nonneg w). pose proof (cost_nonneg ws).
  rewrite IH by lia. unfold chunk_step. simpl.
  rewrite bool_decide_eq_false_2 by lia. simpl.
  rewrite cost_app. simpl. f_equal. lia.
Qed.

End ChunkerFacts.

(* ===================================================================== *)
(** * Chunking: coverage, size bound, boundary cases *)
(* ===================================================================== *)

Example chunk_text_tiny :
  chunk_text tiny_processor (lit "  ab cd   efgh ijklmnopqrstuvw x yz ")
  = [lit "ab cd efgh"; lit "ijklmnopqrstuvw"; lit "x yz"].
Proof. vm_compute. reflexivity. Qed.

Lemma split_blank s :
  Forall (fun c => isspace c = true) s -> split s = [].
Proof.
  unfold split. induction s as [|c s IH]; intros H; [reflexivity|].
  inversion H as [|? ? Hc Hs]; subst. simpl. rewrite Hc. apply IH. exact Hs.
Qed.

Lemma split_go_nonempty s : forall cur,
  cur <> [] \/ Exists (fun c => isspace c = false) s -> split_go cur s <> [].
Proof.
  induction s as [|c s IH]; intros cur H; simpl.
  - destruct H as [H | H]; [|inversion H].
    destruct cur; [congruence | discriminate].
  - destruct (isspace c) eqn:Ec.
    + destruct cur as [|d cur]; [|discriminate].
      apply IH. right. destruct H as [H | H]; [congruence|].
      inversion H; subst; [congruence | assumption].
    + apply IH. left. discriminate.
Qed.

Lemma chunk_text_groups (self : VideoProcessor) (text : str) :
  exists gs,
    chunk_text self text = List.map (join [SPACE]) gs
    /\ concat gs = split text
    /\ Forall (packed (MAX_CHUNK_TOKENS self * 4)) gs.
Proof. unfold chunk_text. apply chunk_finish_groups. Qed.

Lemma packed_nonempty B gs :
  Forall (packed B) gs -> Forall (fun g : list str => g <> []) gs.
Proof. apply List.Forall_impl. intros g [H _]. exact H. Qed.

(** C1. Coverage: the chunks of any text, rejoined with single spaces, are
    the whitespace-normalised text, and splitting that again gives the words
    of the text: the chunks are the joins of consecutive groups of the
    words, so no word is lost, duplicated or reordered. *)
Theorem chunk_text_coverage (self : VideoProcessor) (text : str) :
  split (join [SPACE] (chunk_text self text)) = split text
  /\ join [SPACE] (chunk_text self text) = normalize text
  /\ exists groups,
       chunk_text self text = List.map (join [SPACE]) groups
       /\ concat groups = split text.
Proof.
  destruct (chunk_text_groups self text) as [gs (Hc & Hw & Hp)].
  assert (Hj : join [SPACE] (chunk_text self text) = normalize text).
  { rewrite Hc, join_concat by (eapply packed_nonempty; exact Hp).
    rewrite Hw. reflexivity. }
  split; [|split].
  - rewrite Hj. unfold normalize. apply split_join. apply split_words.
  - exact Hj.
  - exists gs. split; assumption.
Qed.

(** C6. Size bound: every chunk is the join of a non-empty group of
    consecutive words and is at most the budget long, unless it is one word
    that is longer than the budget; such a word is in the output, whole,
    and alone in its chunk. *)
Theorem chunk_text_size_bound (self : VideoProcessor) (text : str) :
  let budget := MAX_CHUNK_TOKENS self * 4 in
  exists groups,
    chunk_text self text = List.map (join [SPACE]) groups
    /\ concat groups = split text
    /\ (forall g, In g groups ->
          g <> [] /\ (len (join [SPACE] g) <= budget
                      \/ exists w, g = [w] /\ len w > budget))
    /\ (forall g w, In g groups -> In w g -> len w > budget -> g = [w])
    /\ (forall c, In c (chunk_text self text) ->
          len c <= budget \/ (In c (split text) /\ len c > budget)).
Proof.
  intros budget.
  destruct (chunk_text_groups self text) as [gs (Hc & Hw & Hp)].
  fold budget in Hp. rewrite Forall_forall in Hp.
  assert (Hsize : forall g, In g gs ->
            g <> [] /\ (len (join [SPACE] g) <= budget
                        \/ exists w, g = [w] /\ len w > budget)).
  { intros g Hg. destruct (Hp g (proj2 (list_elem_of_In _ _) Hg)) as [Hne [Hle | [w Hw1]]].
    - split; [exact Hne|]. left. rewrite len_join by exact Hne. lia.
    - split; [exact Hne|]. subst g. simpl.
      destruct (Z_le_gt_dec (len w) budget); [left; assumption|].
      right. exists w. split; [reflexivity | assumption]. }
  exists gs. repeat split; try assumption.
  - apply Hsize. assumption.
  - apply Hsize. assumption.
  - intros g w Hg Hin Hlong.
    destruct (Hp g (proj2 (list_elem_of_In _ _) Hg)) as [Hne [Hle | [w' Hw1]]].
    + exfalso. apply in_split in Hin. destruct Hin as (l1 & l2 & ->).
      rewrite cost_app in Hle. simpl in Hle.
      pose proof (cost_nonneg l1). pose proof (cost_nonneg l2). lia.
    + subst g. destruct Hin as [-> | []]. reflexivity.
  - intros c Hin. rewrite Hc in Hin. apply in_map_iff in Hin.
    destruct Hin as (g & <- & Hg).
    destruct (Hsize g Hg) as [_ [Hle | (w & -> & Hlong)]]; [left; exact Hle|].
    right. simpl. split; [|exact Hlong].
    rewrite <- Hw. apply in_concat. exists [w]. split; [exact Hg | left; reflexivity].
Qed.

(** C7. Boundary cases: an empty or whitespace-only text yields the empty
    chunk list; any other text, that is a text with a character that is not
    whitespace, whose whitespace-normalised form is shorter than the budget
    yields that form as its only chunk.  Every text is in one of the two
    cases. *)
Theorem chunk_text_boundary (self : VideoProcessor) (text : str) :
  (Forall (fun c => isspace c = true) text -> chunk_text self text = [])
  /\ (Exists (fun c => isspace c = false) text ->
      len (normalize text) < MAX_CHUNK_TOKENS self * 4 ->
      chunk_text self text = [normalize text])
  /\ (Forall (fun c => isspace c = true) text
      \/ Exists (fun c => isspace c = false) text).
Proof.
  split; [|split].
  - intros Hblank. unfold chunk_text. rewrite split_blank by exact Hblank.
    reflexivity.
  - intros Hword Hshort. unfold chunk_text, normalize in *.
    assert (Hne : split text <> []).
    { apply split_go_nonempty. right. exact Hword. }
    rewrite len_join in Hshort by exact Hne.
    rewrite chunk_run_fits by lia.
    unfold chunk_finish. simpl.
    destruct (split text); [congruence | reflexivity].
  - induction text as [|c text IH]; [left; constructor|].
    destruct (isspace c) eqn:Ec.
    + destruct IH as [IH | IH].
      * left. constructor; assumption.
      * right. apply Exists_cons_tl. exact IH.
    + right. apply Exists_cons_hd. exact Ec.
Qed.

Lemma chunk_text_boundary_witness :
  chunk_text default_processor (lit "  ") = []
  /\ chunk_text default_processor (lit "This is  a short text. ")
     = [lit "This is a short text."].
Proof.
  split.
  - apply (proj1 (chunk_text_boundary default_processor (lit "  "))).
    repeat constructor.
  - apply (proj1 (proj2 (chunk_text_boundary default_processor
                           (lit "This is  a short text. ")))).
    + apply Exists_cons_hd. reflexivity.
    + vm_compute. reflexivity.
Defined.

(* ===================================================================== *)
(** * The manual fallback parser *)
(* ===================================================================== *)

Lemma manual_step_flush st line :
  manual_flush (manual_step st line)
  = manual_flush st
    ++ (if likely_question (strip line)
        then [JDict (manual_record (strip line))] else []).
Proof.
  destruct st as [questions current_question]. unfold manual_step.
  destruct (likely_question (strip line)).
  - reflexivity.
  - rewrite app_nil_r. reflexivity.
Qed.

Lemma manual_loop_flush lines : forall st,
  manual_flush (fold_left manual_step lines st)
  = manual_flush st
    ++ List.map (fun line => JDict (manual_record line))
         (List.filter likely_question (List.map strip lines)).
Proof.
  induction lines as [|line lines IH]; intros st; simpl.
  - rewrite app_nil_r. reflexivity.
  - rewrite IH, manual_step_flush.
    destruct (likely_question (strip line)); simpl.
    + rewrite <- app_assoc. reflexivity.
    + rewrite app_nil_r. reflexivity.
Qed.

(** C8. The manual parser returns one record per line that, once trimmed,
    contains a question mark and has more than 10 characters, in the order
    of the lines; the record holds the trimmed line as its question, with
    speaker unknown and type general.  Two such lines and a short line
    that is no question give exactly two records. *)
Theorem parse_questions_manually_spec :
  (forall response_text : str,
     _parse_questions_manually response_text
     = List.map
         (fun line => JDict [(KEY_QUESTION, JStr line);
                             (KEY_SPEAKER, JStr UNKNOWN);
                             (KEY_TYPE, JStr GENERAL)])
         (List.filter
            (fun line => contains QUESTION_MARK line
                         && bool_decide (len line > 10))
            (List.map strip (split_on NEWLINE response_text))))
  /\ _parse_questions_manually
       (join [NEWLINE]
          [lit "  What is your programming experience?";
           lit "Ok?";
           lit "How do you handle stress?  "])
     = [JDict [(KEY_QUESTION, JStr (lit "What is your programming experience?"));
               (KEY_SPEAKER, JStr UNKNOWN); (KEY_TYPE, JStr GENERAL)];
        JDict [(KEY_QUESTION, JStr (lit "How do you handle stress?"));
               (KEY_SPEAKER, JStr UNKNOWN); (KEY_TYPE, JStr GENERAL)]].
Proof.
  split; [|vm_compute; reflexivity].
  intros response_text. unfold _parse_questions_manually.
  pose proof (manual_loop_flush (split_on NEWLINE response_text) ([], [])) as H.
  destruct (fold_left manual_step (split_on NEWLINE response_text) ([], []))
    as [questions current_question].
  exact H.
Qed.

(* ===================================================================== *)
(** * Question extraction *)
(* ===================================================================== *)

Section ExtractionFacts.

Context {World : Type}.
Variable ollama_generate : str -> str -> World -> result str * World.
Variable json_loads : str -> result json.

Local Abbreviation from_chunk :=
  (generate_questions_from_chunk ollama_generate json_loads).
Local Abbreviation loop := (generate_questions_loop ollama_generate json_loads).

Lemma from_chunk_call_raises self chunk w e w' :
  ollama_generate (OLLAMA_MODEL self) (format_prompt chunk) w = (Raise e, w') ->
  from_chunk self chunk w = ([], w').
Proof. intros H. unfold generate_questions_from_chunk. rewrite H. reflexivity. Qed.

(** A span that does not decode gives the empty list, whatever the text. *)
Lemma from_chunk_decode_raises self chunk w response w' span e :
  ollama_generate (OLLAMA_MODEL self) (format_prompt chunk) w
    = (Ok response, w') ->
  search_bracket_span (strip response) = Some span ->
  json_loads span = Raise e ->
  from_chunk self chunk w = ([], w').
Proof.
  intros Hcall Hspan Hdec. unfold generate_questions_from_chunk.
  rewrite Hcall, Hspan, Hdec. destruct e; reflexivity.
Qed.

(** A span that decodes to a list is returned as decoded. *)
Lemma from_chunk_decoded_list self chunk w response w' span items :
  ollama_generate (OLLAMA_MODEL self) (format_prompt chunk) w
    = (Ok response, w') ->
  search_bracket_span (strip response) = Some span ->
  json_loads span = Ok (JList items) ->
  from_chunk self chunk w = (items, w').
Proof.
  intros Hcall Hspan Hdec. unfold generate_questions_from_chunk.
  rewrite Hcall, Hspan, Hdec. reflexivity.
Qed.

(** The fallback runs exactly when the response has no bracket span. *)
Lemma from_chunk_no_span self chunk w response w' :
  ollama_generate (OLLAMA_MODEL self) (format_prompt chunk) w
    = (Ok response, w') ->
  search_bracket_span (strip response) = None ->
  from_chunk self chunk w = (_parse_questions_manually (strip response), w').
Proof.
  intros Hcall Hspan. unfold generate_questions_from_chunk.
  rewrite Hcall, Hspan. reflexivity.
Qed.

Lemma loop_acc self cs : forall acc w,
  loop self cs acc w
  = (acc ++ fst (loop self cs [] w), snd (loop self cs [] w)).
Proof.
  induction cs as [|c cs IH]; intros acc w; simpl.
  - rewrite app_nil_r. reflexivity.
  - destruct (from_chunk self c w) as [qs w1].
    rewrite (IH (acc ++ qs)), (IH ([] ++ qs)). simpl.
    rewrite app_assoc. reflexivity.
Qed.

Lemma loop_app self cs1 cs2 : forall acc w,
  loop self (cs1 ++ cs2) acc w
  = loop self cs2 (fst (loop self cs1 acc w)) (snd (loop self cs1 acc w)).
Proof.
  induction cs1 as [|c cs1 IH]; intros acc w; simpl; [reflexivity|].
  destruct (from_chunk self c w) as [qs w1]. apply IH.
Qed.

(** C9. A chunk whose language-model call raises yields the empty list
    instead of an exception, and the transcript's result is the questions
    of the chunks before it followed by those of the chunks after it, which
    are processed from the state the failed call left. *)
Theorem chunk_failure_isolated
    (self : VideoProcessor) (transcript : str)
    (before : list str) (chunk : str) (after : list str)
    (w w1 w2 : World) (found : list json) (e : exn) :
  chunk_text self transcript = before ++ chunk :: after ->
  loop self before [] w = (found, w1) ->
  ollama_generate (OLLAMA_MODEL self) (format_prompt chunk) w1 = (Raise e, w2) ->
  from_chunk self chunk w1 = ([], w2)
  /\ generate_questions ollama_generate json_loads self transcript w
     = (found ++ fst (loop self after [] w2), snd (loop self after [] w2)).
Proof.
  intros Hchunks Hbefore Hcall.
  pose proof (from_chunk_call_raises self chunk w1 e w2 Hcall) as Hempty.
  split; [exact Hempty|].
  unfold generate_questions. rewrite Hchunks, loop_app, Hbefore. simpl.
  rewrite Hempty, app_nil_r. apply loop_acc.
Qed.

End ExtractionFacts.

Lemma chunk_failure_isolated_witness :
  generate_questions_from_chunk (failing_at 1 SAMPLE_RESPONSE)
    JsonRef.json_loads tiny_processor (lit "ijklmnopqrstuvw") 1%nat
  = ([], 2%nat)
  /\ generate_questions (failing_at 1 SAMPLE_RESPONSE) JsonRef.json_loads
       tiny_processor (lit "  ab cd   efgh ijklmnopqrstuvw x yz ") 0%nat
     = ([SAMPLE_RECORD; SAMPLE_RECORD], 3%nat).
Proof.
  apply (chunk_failure_isolated (failing_at 1 SAMPLE_RESPONSE)
           JsonRef.json_loads tiny_processor
           (lit "  ab cd   efgh ijklmnopqrstuvw x yz ")
           [lit "ab cd efgh"] (lit "ijklmnopqrstuvw") [lit "x yz"]
           0%nat 1%nat 2%nat [SAMPLE_RECORD]
           (OtherException (lit "connection refused")));
    vm_compute; reflexivity.
Defined.

(* ===================================================================== *)
(** * The report: bucketing *)
(* ===================================================================== *)

Section ReportFacts.

Lemma bucket_total_append (m : gmap str (list json)) k l q :
  m !! k = Some l ->
  bucket_total (<[k := l ++ [q]]> m) = S (bucket_total m).
Proof.
  intros Hk. unfold bucket_total.
  rewrite <- (insert_delete_eq m k (l ++ [q])).
  rewrite map_fold_insert_L;
    [| intros; lia | apply lookup_delete_eq].
  rewrite (map_fold_delete_L _ _ k l m); [| intros; lia | exact Hk].
  rewrite length_app. simpl. lia.
Qed.

Lemma three_keys (a b c s : str) :
  is_Some ((<[a := []]> (<[b := []]> (<[c := []]> ∅)) : gmap str (list json)) !! s)
  <-> existsb (str_eqb s) [a; b; c] = true.
Proof.
  simpl. unfold str_eqb. rewrite !orb_true_iff, !bool_decide_eq_true.
  rewrite !lookup_insert_is_Some, lookup_empty, is_Some_alt.
  destruct (decide (a = s)), (decide (b = s)), (decide (c = s));
    split; intros H; subst; intuition congruence.
Qed.

Lemma grouping_init key default allowed a b c :
  allowed = [a; b; c] -> a <> b -> a <> c -> b <> c ->
  grouping_inv key default allowed
    (<[a := []]> (<[b := []]> (<[c := []]> ∅))) [].
Proof.
  intros -> Hab Hac Hbc. constructor.
  - apply three_keys.
  - unfold bucket_total.
    rewrite !map_fold_insert_L, map_fold_empty; try (intros; lia); try reflexivity.
    + rewrite lookup_insert_ne by congruence. apply lookup_empty.
    + rewrite !lookup_insert_ne by congruence. apply lookup_empty.
  - intros k l q Hk Hin. exfalso.
    rewrite !lookup_insert in Hk.
    repeat case_decide; try rewrite lookup_empty in Hk;
      simplify_eq; inversion Hin.
  - intros q [].
Qed.

Lemma bucket_append_inv key default allowed m seen entries m' :
  grouping_inv key default allowed m seen ->
  bucket_append m (field_or entries key default) (JDict entries) = Ok m' ->
  grouping_inv key default allowed m' (seen ++ [JDict entries])
  /\ is_one_of allowed (field_or entries key default) = true.
Proof.
  intros [Hkeys Htot Hsound Hcompl] Happ. unfold bucket_append in Happ.
  destruct (field_or entries key default) as [| | | |k| |] eqn:Hf;
    try discriminate.
  destruct (m !! k) as [l|] eqn:Hk; [|discriminate].
  injection Happ as <-. split; [|simpl; apply Hkeys; rewrite Hk; eauto].
  constructor.
  - intros s. rewrite <- Hkeys, lookup_insert_is_Some.
    split; [intros [<- | [_ H]]; [rewrite Hk; eauto | exact H] |].
    intros H. destruct (decide (k = s)); [left | right]; auto.
  - rewrite bucket_total_append by exact Hk. rewrite length_app. simpl. lia.
  - intros k0 l0 q0 Hk0 Hin. rewrite lookup_insert in Hk0.
    case_decide as Hd.
    + subst k0. injection Hk0 as <-. apply in_app_or in Hin.
      destruct Hin as [Hin | [<- | []]].
      * destruct (Hsound k l q0 Hk Hin) as [Hseen Hq].
        split; [apply in_or_app; left; exact Hseen | exact Hq].
      * split; [apply in_or_app; right; left; reflexivity|].
        exists entries. split; [reflexivity | exact Hf].
    + destruct (Hsound k0 l0 q0 Hk0 Hin) as [Hseen Hq].
      split; [apply in_or_app; left; exact Hseen | exact Hq].
  - intros q0 Hin. apply in_app_or in Hin. destruct Hin as [Hin | [<- | []]].
    + destruct (Hcompl q0 Hin) as (en & k0 & l0 & Hq & Hfield & Hk0 & Hl0).
      exists en, k0. destruct (decide (k = k0)) as [<- | Hne].
      * exists (l ++ [JDict entries]). rewrite lookup_insert_eq.
        rewrite Hk in Hk0. injection Hk0 as <-.
        repeat split; auto. apply in_or_app. left. exact Hl0.
      * exists l0. rewrite lookup_insert_ne by exact Hne. auto.
    + exists entries, k, (l ++ [JDict entries]). rewrite lookup_insert_eq.
      repeat split; auto. apply in_or_app. right. left. reflexivity.
Qed.



Lemma report_inv_init :
  report_inv
    {| video_name := []; total_questions := 0;
       by_speaker := empty_by_speaker; by_type := empty_by_type;
       all_questions := [] |} [].
Proof.
  split; simpl; apply grouping_init; (reflexivity || (vm_compute; congruence)).
Qed.

Lemma categorize_ok r q r' seen :
  report_inv r seen -> categorize r q = Ok r' ->
  report_inv r' (seen ++ [q]) /\ valid_record q = true /\ same_header r r'.
Proof.
  intros [Hs Ht] Hc. destruct q as [| | | | | |entries]; try discriminate.
  unfold categorize in Hc. simpl in Hc.
  fold (field_or entries KEY_SPEAKER UNKNOWN) in Hc.
  fold (field_or entries KEY_TYPE GENERAL) in Hc.
  destruct (bucket_append (by_speaker r) _ _) as [bs|] eqn:Hbs; [|discriminate].
  destruct (bucket_append (by_type r) _ _) as [bt|] eqn:Hbt; [|discriminate].
  simpl in Hc. injection Hc as <-.
  destruct (bucket_append_inv _ _ _ _ _ _ _ Hs Hbs) as [Hs' Hvs].
  destruct (bucket_append_inv _ _ _ _ _ _ _ Ht Hbt) as [Ht' Hvt].
  split; [split; assumption|].
  split; [unfold valid_record; rewrite Hvs, Hvt; reflexivity|].
  unfold same_header. simpl. auto.
Qed.



Lemma categorize_all_ok qs : forall r r' seen,
  report_inv r seen -> categorize_all r qs = Ok r' ->
  report_inv r' (seen ++ qs)
  /\ Forall (fun q => valid_record q = true) qs /\ same_header r r'.
Proof.
  induction qs as [|q qs IH]; intros r r' seen Hinv Hc; simpl in Hc.
  - injection Hc as <-. rewrite app_nil_r.
    split; [exact Hinv|]. split; [constructor|]. unfold same_header. auto.
  - destruct (categorize r q) as [r1|] eqn:H1; [|discriminate]. simpl in Hc.
    destruct (categorize_ok _ _ _ _ Hinv H1) as (Hinv1 & Hv & Hh1).
    destruct (IH _ _ _ Hinv1 Hc) as (Hinv' & Hvs & Hh).
    rewrite <- app_assoc in Hinv'. split; [exact Hinv'|]. split.
    + constructor; assumption.
    + destruct Hh1 as (? & ? & ?), Hh as (? & ? & ?).
      repeat split; congruence.
Qed.



Lemma report_inv_header r r0 seen :
  by_speaker r = by_speaker r0 -> by_type r = by_type r0 ->
  report_inv r0 seen -> report_inv r seen.
Proof. unfold report_inv. intros -> ->. auto. Qed.

(** The report of a successful run: header, invariant, valid records. *)
Lemma organize_questions_ok video qs r :
  organize_questions video qs = Ok r ->
  report_inv r qs
  /\ Forall (fun q => valid_record q = true) qs
  /\ video_name r = name video
  /\ total_questions r = Z.of_nat (length qs)
  /\ all_questions r = qs.
Proof.
  unfold organize_questions. intros H.
  eapply categorize_all_ok with (seen := []) in H.
  - destruct H as (Hinv & Hv & Hn & Ht & Ha). simpl in *. auto.
  - eapply report_inv_header; [| | exact report_inv_init]; reflexivity.
Qed.




End ReportFacts.

(* ===================================================================== *)
(** * The report: aggregation and partiality *)
(* ===================================================================== *)



(** Once the records are bucketed, the dump alone decides the outcome. *)
Lemma save_questions_bucketed json_dump self video qs fs r :
  organize_questions video qs = Ok r ->
  save_questions json_dump self video qs fs
  = match json_dump r with
    | Ok _ => (Ok (questions_path self video),
               <[questions_path self video := Report r]> fs)
    | Raise e => (Raise e, <[questions_path self video := Truncated r]> fs)
    end.
Proof.
  intros Hr. unfold save_questions. rewrite Hr.
  destruct (json_dump r); reflexivity.
Qed.

Lemma save_questions_raised json_dump self video qs fs e :
  organize_questions video qs = Raise e ->
  save_questions json_dump self video qs fs = (Raise e, fs).
Proof. intros Hr. unfold save_questions. rewrite Hr. reflexivity. Qed.

(** What a return of [save_questions] tells. *)
Lemma save_questions_returned json_dump self video qs fs file fs' :
  save_questions json_dump self video qs fs = (Ok file, fs') ->
  exists r,
    organize_questions video qs = Ok r
    /\ json_dump r = Ok tt
    /\ file = questions_path self video
    /\ fs' = <[file := Report r]> fs.
Proof.
  intros Hsave.
  destruct (organize_questions video qs) as [r|e] eqn:Hr.
  - rewrite (save_questions_bucketed _ _ _ _ _ _ Hr) in Hsave.
    destruct (json_dump r) as [[]|] eqn:Hd; [|discriminate].
    injection Hsave as <- <-. exists r. auto.
  - rewrite (save_questions_raised _ _ _ _ _ _ Hr) in Hsave. discriminate.
Qed.





(* ===================================================================== *)
(** * Parsing a response: decoded lists and undecodable spans *)
(* ===================================================================== *)

Lemma missing_field_bucket key default allowed m seen entries :
  grouping_inv key default allowed m seen ->
  In (JDict entries) seen -> assoc entries key = None ->
  exists l, m !! default = Some l /\ In (JDict entries) l.
Proof.
  intros [_ _ _ Hcompl] Hin Hmissing.
  destruct (Hcompl _ Hin) as (en & k & l & Heq & Hf & Hk & Hl).
  injection Heq as <-. unfold field_or in Hf. rewrite Hmissing in Hf.
  injection Hf as <-. eauto.
Qed.

(** C4, as the code has it. When the bracket span decodes to a list,
    [generate_questions_from_chunk] returns that list as decoded: the same
    elements in the same order, none added, and no field added to any of
    them.  The defaults apply when [save_questions] buckets the records: a
    dict without speaker is filed under unknown and a dict without type
    under general, and the record itself stays as it was, in the bucket
    and in [all_questions]. *)
Theorem decoded_list_returned_unchanged
    {World : Type}
    (ollama_generate : str -> str -> World -> result str * World)
    (json_loads : str -> result json)
    (self : VideoProcessor) (chunk : str) (w w' : World)
    (response span : str) (items : list json) :
  ollama_generate (OLLAMA_MODEL self) (format_prompt chunk) w
    = (Ok response, w') ->
  search_bracket_span (strip response) = Some span ->
  json_loads span = Ok (JList items) ->
  generate_questions_from_chunk ollama_generate json_loads self chunk w
    = (items, w')
  /\ forall video_path questions report,
       organize_questions video_path questions = Ok report ->
       all_questions report = questions
       /\ forall entries,
            In (JDict entries) questions ->
            (assoc entries KEY_SPEAKER = None ->
             exists l, by_speaker report !! UNKNOWN = Some l
                       /\ In (JDict entries) l)
            /\ (assoc entries KEY_TYPE = None ->
                exists l, by_type report !! GENERAL = Some l
                          /\ In (JDict entries) l).
Proof.
  intros Hcall Hspan Hdec. split.
  - eapply from_chunk_decoded_list; eassumption.
  - intros video_path questions report Hr.
    destruct (organize_questions_ok _ _ _ Hr) as ([Hs Ht] & _ & _ & _ & Hall).
    split; [exact Hall|]. intros entries Hin. split; intros Hmissing.
    + eapply missing_field_bucket; eassumption.
    + eapply missing_field_bucket; eassumption.
Qed.

Lemma decoded_list_returned_unchanged_witness :
  generate_questions_from_chunk (answering SAMPLE_RESPONSE)
    JsonRef.json_loads default_processor (lit "Why is the build slow?") 0%nat
  = ([SAMPLE_RECORD], 1%nat).
Proof.
  apply (decoded_list_returned_unchanged (answering SAMPLE_RESPONSE)
           JsonRef.json_loads default_processor (lit "Why is the build slow?")
           0%nat 1%nat SAMPLE_RESPONSE
           (lit "[{" ++ quoted "question" ++ lit ": "
              ++ quoted "Why is the build slow?" ++ lit "}]")
           [SAMPLE_RECORD]);
    vm_compute; reflexivity.
Defined.

(** C4 as the specification words it does not hold: the record returned
    for a response whose only element has neither speaker nor type has
    neither field. *)
Lemma returned_records_not_coerced :
  let returned :=
    fst (generate_questions_from_chunk (answering SAMPLE_RESPONSE)
           JsonRef.json_loads default_processor
           (lit "Why is the build slow?") 0%nat) in
  returned = [SAMPLE_RECORD]
  /\ ~ (forall entries,
          In (JDict entries) returned ->
          assoc entries KEY_SPEAKER = Some (JStr UNKNOWN)
          /\ assoc entries KEY_TYPE = Some (JStr GENERAL)).
Proof.
  split; [vm_compute; reflexivity|].
  intros H.
  destruct (H [(KEY_QUESTION, JStr (lit "Why is the build slow?"))]) as [Hs _].
  - vm_compute. left. reflexivity.
  - vm_compute in Hs. discriminate.
Qed.

(** C3. The code at a response whose bracket span is no JSON: the span is
    found, decoding it raises, and [generate_questions_from_chunk] returns
    the empty list, although the manual parser finds a question in the
    same response text. *)
Theorem undecodable_span_skips_fallback :
  search_bracket_span (strip TAGGED_RESPONSE) = Some (lit "[Q1]")
  /\ JsonRef.json_loads (lit "[Q1]") = Raise JSONDecodeError
  /\ generate_questions_from_chunk (answering TAGGED_RESPONSE)
       JsonRef.json_loads default_processor
       (lit "What is your experience with Python?") 0%nat
     = ([], 1%nat)
  /\ _parse_questions_manually (strip TAGGED_RESPONSE)
     = [JDict (manual_record TAGGED_RESPONSE)].
Proof. repeat split; vm_compute; reflexivity. Qed.

(* ===================================================================== *)
(** * Transcription: the scratch audio file *)
(* ===================================================================== *)

Section TranscriptionFacts.

Variable extract_audio : Path -> Path -> filesystem -> result unit * filesystem.
Variable whisper_transcribe : Path -> filesystem -> result str.

Local Abbreviation transcribe :=
  (transcribe_video extract_audio whisper_transcribe).

(** A run that returns a transcript has removed the scratch file. *)
Lemma transcribe_video_success_cleans video fs text fs' :
  transcribe video fs = (Ok text, fs') ->
  fs' !! with_suffix video (lit ".wav") = None.
Proof.
  unfold transcribe_video. intros H.
  destruct (extract_audio _ _ _) as [[u|e] fs1]; [|discriminate].
  destruct (whisper_transcribe _ _) as [t|e]; [|discriminate].
  injection H as _ <-. apply lookup_delete_eq.
Qed.

(** A run whose recognition raises leaves the file system as the
    extraction left it, scratch file included. *)
Lemma transcribe_video_failure_keeps video fs u fs1 e :
  extract_audio video (with_suffix video (lit ".wav")) fs = (Ok u, fs1) ->
  whisper_transcribe (with_suffix video (lit ".wav")) fs1 = Raise e ->
  transcribe video fs = (Raise e, fs1).
Proof.
  intros Hx Hw. unfold transcribe_video. rewrite Hx, Hw. reflexivity.
Qed.

End TranscriptionFacts.

(** C2. The code at a video whose audio is extracted and whose recognition
    raises: the exception propagates and the scratch [.wav] file is still
    there; it is removed only on the path that returns a transcript. *)
Theorem failed_recognition_leaves_scratch :
  let audio := with_suffix SAMPLE_VIDEO (lit ".wav") in
  transcribe_video writes_track recognizer_fails SAMPLE_VIDEO ∅
  = (Raise (OtherException (lit "recognition failed")),
     <[audio := Audio SAMPLE_VIDEO]> ∅)
  /\ snd (transcribe_video writes_track recognizer_fails SAMPLE_VIDEO ∅)
       !! audio = Some (Audio SAMPLE_VIDEO)
  /\ transcribe_video writes_track (recognizer_says (lit " Hello. "))
       SAMPLE_VIDEO ∅
     = (Ok (lit "Hello."), ∅).
Proof.
  intros audio. split; [reflexivity|]. split.
  - unfold transcribe_video, writes_track, recognizer_fails. simpl.
    apply lookup_insert_eq.
  - unfold transcribe_video, writes_track, recognizer_says.
    rewrite lookup_insert_eq. simpl. f_equal.
Qed.

(* ===================================================================== *)
(** * More on the chunker: greedy packing, re-chunking, normal forms *)
(* ===================================================================== *)

Lemma chunk_fold_groups B ws : forall st,
  current_length st = cost (current_chunk st) ->
  chunk_finish (fold_left (chunk_step B) ws st)
  = chunks st ++ List.map (join [SPACE]) (groups_from B (current_chunk st) ws).
Proof.
  induction ws as [|w ws IH]; intros st Hlen; simpl.
  - unfold chunk_finish. destruct (truthy (current_chunk st)); simpl;
      [reflexivity | rewrite app_nil_r; reflexivity].
  - unfold chunk_step at 2. rewrite Hlen.
    destruct (bool_decide (cost (current_chunk st) + (len w + 1) > B)
              && truthy (current_chunk st)) eqn:Hc.
    + rewrite IH by (simpl; lia). simpl. rewrite <- app_assoc. reflexivity.
    + rewrite IH by (simpl; rewrite cost_app; simpl; lia). reflexivity.
Qed.

(** [chunk_text] in closed form. *)
Lemma chunk_text_closed_form (self : VideoProcessor) (text : str) :
  chunk_text self text
  = List.map (join [SPACE])
      (groups_from (MAX_CHUNK_TOKENS self * 4) [] (split text)).
Proof. unfold chunk_text. rewrite chunk_fold_groups; reflexivity. Qed.

Lemma groups_from_concat B ws : forall cur,
  concat (groups_from B cur ws) = cur ++ ws.
Proof.
  induction ws as [|w ws IH]; intros cur; simpl.
  - destruct cur; simpl; rewrite ?app_nil_r; reflexivity.
  - destruct (bool_decide _ && truthy cur); simpl; rewrite IH.
    + reflexivity.
    + rewrite <- app_assoc. reflexivity.
Qed.

Lemma groups_from_head B ws : forall cur,
  cur <> [] ->
  exists ext rest, groups_from B cur ws = (cur ++ ext) :: rest.
Proof.
  induction ws as [|w ws IH]; intros cur Hne; simpl.
  - destruct cur; [congruence|]. exists [], []. simpl. rewrite app_nil_r.
    reflexivity.
  - destruct (bool_decide _ && truthy cur).
    + exists [], (groups_from B [w] ws). rewrite app_nil_r. reflexivity.
    + destruct (IH (cur ++ [w])) as (ext & rest & ->).
      { intros H. apply app_eq_nil in H. destruct H; discriminate. }
      exists (w :: ext), rest. rewrite <- app_assoc. reflexivity.
Qed.

Lemma groups_from_tight B ws : forall cur, tight B (groups_from B cur ws).
Proof.
  induction ws as [|w ws IH]; intros cur; simpl.
  - destruct cur; simpl; auto.
  - destruct (bool_decide (cost cur + (len w + 1) > B) && truthy cur) eqn:Hc.
    + apply andb_prop in Hc. destruct Hc as [Hgt _].
      apply bool_decide_eq_true in Hgt.
      simpl. split; [|apply IH].
      destruct (groups_from_head B ws [w]) as (ext & rest & ->);
        [discriminate|].
      simpl. exact Hgt.
    + apply IH.
Qed.

Lemma groups_from_packed B ws : forall cur,
  cur = [] \/ packed B cur -> Forall (packed B) (groups_from B cur ws).
Proof.
  induction ws as [|w ws IH]; intros cur Hcur; simpl.
  - destruct cur; simpl; [constructor|].
    constructor; [|constructor]. destruct Hcur; [discriminate | assumption].
  - destruct (bool_decide (cost cur + (len w + 1) > B) && truthy cur) eqn:Hc.
    + apply andb_prop in Hc. destruct Hc as [_ Hne]. apply truthy_true in Hne.
      constructor.
      * destruct Hcur; [contradiction | assumption].
      * apply IH. right. split; [discriminate|]. right. exists w. reflexivity.
    + apply IH. right. split.
      * intros H. apply app_eq_nil in H. destruct H; discriminate.
      * apply andb_false_iff in Hc. destruct Hc as [Hle | Hemp].
        -- left. apply bool_decide_eq_false in Hle. rewrite cost_app. simpl. lia.
        -- right. exists w. destruct cur; [reflexivity | discriminate].
Qed.

Lemma tight_middle B l1 : forall g w g' l2,
  tight B (l1 ++ g :: (w :: g') :: l2) -> cost g + (len w + 1) > B.
Proof.
  induction l1 as [|h l1 IH]; intros g w g' l2 H.
  - simpl in H. tauto.
  - apply (IH g w g' l2). change ((h :: l1) ++ g :: (w :: g') :: l2)
      with (h :: (l1 ++ g :: (w :: g') :: l2)) in H.
    simpl in H. tauto.
Qed.

Lemma cost_join g w :
  g <> [] -> len (join [SPACE] (g ++ [w])) = cost g + len w.
Proof.
  intros Hg. rewrite len_join.
  - rewrite cost_app. simpl. lia.
  - intros H. apply app_eq_nil in H. destruct H; discriminate.
Qed.

(** Greedy packing. The chunks are the joins of consecutive groups of the
    words; a chunk of two or more words is strictly shorter than the
    budget; and a chunk ends only where the next word did not fit: with the
    first word of the next chunk appended, it would be at least as long as
    the budget. *)
Theorem chunk_text_greedy (self : VideoProcessor) (text : str) :
  let budget := MAX_CHUNK_TOKENS self * 4 in
  exists groups,
    chunk_text self text = List.map (join [SPACE]) groups
    /\ concat groups = split text
    /\ (forall g, In g groups ->
          (2 <= length g)%nat -> len (join [SPACE] g) < budget)
    /\ (forall before g w g' after,
          groups = before ++ g :: (w :: g') :: after ->
          len (join [SPACE] (g ++ [w])) >= budget).
Proof.
  intros budget. exists (groups_from budget [] (split text)).
  pose proof (groups_from_packed budget (split text) [] (or_introl eq_refl))
    as Hp.
  split; [apply chunk_text_closed_form|]. split; [apply groups_from_concat|].
  split.
  - intros g Hg Hlen. rewrite Forall_forall in Hp.
    destruct (Hp g (proj2 (list_elem_of_In _ _) Hg)) as [Hne [Hle | [w ->]]].
    + rewrite len_join by exact Hne. lia.
    + simpl in Hlen. lia.
  - intros before g w g' after Heq.
    pose proof (groups_from_tight budget (split text) []) as Ht.
    rewrite Heq in Ht. apply tight_middle in Ht.
    rewrite cost_join; [lia|].
    rewrite Heq in Hp. apply Forall_app in Hp. destruct Hp as [_ Hp].
    inversion Hp as [|? ? [Hne _] _]. exact Hne.
Qed.

Lemma words_of_groups (gs : list (list str)) :
  Forall word (concat gs) -> Forall (Forall word) gs.
Proof.
  induction gs as [|g gs IH]; intros H; [constructor|].
  simpl in H. apply Forall_app in H. destruct H as [Hg Hgs].
  constructor; [exact Hg | apply IH; exact Hgs].
Qed.

Lemma chunk_text_of_words (self : VideoProcessor) (g : list str) :
  packed (MAX_CHUNK_TOKENS self * 4) g -> Forall word g ->
  chunk_text self (join [SPACE] g) = [join [SPACE] g].
Proof.
  intros [Hne Hfit] Hw. unfold chunk_text. rewrite split_join by exact Hw.
  destruct Hfit as [Hle | [w ->]].
  - rewrite chunk_run_fits by exact Hle. unfold chunk_finish. simpl.
    destruct g; [congruence | reflexivity].
  - simpl. unfold chunk_step. simpl. rewrite andb_false_r. reflexivity.
Qed.

(** Re-chunking. Every chunk that [chunk_text] returns is a fixed point of
    the chunker: chunking it again returns it alone, unchanged. *)
Theorem chunk_text_rechunk (self : VideoProcessor) (text c : str) :
  In c (chunk_text self text) -> chunk_text self c = [c].
Proof.
  intros Hin.
  destruct (chunk_text_groups self text) as [gs (Hc & Hw & Hp)].
  rewrite Hc in Hin. apply in_map_iff in Hin. destruct Hin as (g & <- & Hg).
  pose proof (split_words text) as Hwords. rewrite <- Hw in Hwords.
  apply words_of_groups in Hwords.
  rewrite Forall_forall in Hp, Hwords.
  apply list_elem_of_In in Hg.
  apply chunk_text_of_words; [apply Hp | apply Hwords]; exact Hg.
Qed.

Lemma chunk_text_rechunk_witness :
  chunk_text tiny_processor (lit "ab cd efgh") = [lit "ab cd efgh"].
Proof.
  apply (chunk_text_rechunk tiny_processor
           (lit "  ab cd   efgh ijklmnopqrstuvw x yz ") (lit "ab cd efgh")).
  vm_compute. left. reflexivity.
Defined.

Lemma concat_length_ge {A} (gs : list (list A)) :
  Forall (fun g => g <> []) gs -> (length gs <= length (concat gs))%nat.
Proof.
  induction gs as [|g gs IH]; intros H; simpl; [lia|].
  inversion H as [|? ? Hg Hgs]; subst. rewrite length_app.
  specialize (IH Hgs). destruct g; [congruence | simpl; lia].
Qed.

(** No empty chunk. [chunk_text] returns the empty list exactly for the
    texts without a word; every chunk it returns contains a word, so no
    chunk is empty or blank; and there are at most as many chunks as
    words. *)
Theorem chunk_text_no_empty_chunk (self : VideoProcessor) (text : str) :
  (chunk_text self text = [] <-> split text = [])
  /\ Forall (fun c => c <> [] /\ split c <> []) (chunk_text self text)
  /\ (length (chunk_text self text) <= length (split text))%nat.
Proof.
  destruct (chunk_text_groups self text) as [gs (Hc & Hw & Hp)].
  pose proof (packed_nonempty _ _ Hp) as Hne.
  pose proof (split_words text) as Hwords. rewrite <- Hw in Hwords.
  apply words_of_groups in Hwords.
  split; [|split].
  - rewrite Hc, <- Hw. split; intros H.
    + destruct gs; [reflexivity | discriminate].
    + destruct gs as [|g gs]; [reflexivity|]. exfalso.
      inversion Hne as [|? ? Hg _]; subst. simpl in H.
      apply app_eq_nil in H. destruct H. contradiction.
  - rewrite Hc. apply Forall_forall. intros c Hin.
    apply list_elem_of_In, in_map_iff in Hin. destruct Hin as (g & <- & Hg).
    rewrite Forall_forall in Hne, Hwords. apply list_elem_of_In in Hg.
    specialize (Hne g Hg). specialize (Hwords g Hg).
    assert (Hs : split (join [SPACE] g) <> []).
    { rewrite split_join by exact Hwords. exact Hne. }
    split; [|exact Hs]. intros H. rewrite H in Hs. apply Hs. reflexivity.
  - rewrite Hc, length_map, <- Hw. apply concat_length_ge. exact Hne.
Qed.

(** Normal forms. The chunker sees only the words: the whitespace-normalised
    text, and the chunks rejoined with single spaces, are chunked exactly as
    the text itself. *)
Theorem chunk_text_normal_form (self : VideoProcessor) (text : str) :
  chunk_text self (normalize text) = chunk_text self text
  /\ chunk_text self (join [SPACE] (chunk_text self text))
     = chunk_text self text.
Proof.
  assert (Hn : chunk_text self (normalize text) = chunk_text self text).
  { unfold chunk_text, normalize.
    rewrite split_join by apply split_words. reflexivity. }
  split; [exact Hn|].
  destruct (chunk_text_groups self text) as [gs (Hc & Hw & Hp)].
  rewrite Hc at 1. rewrite join_concat by (eapply packed_nonempty; exact Hp).
  rewrite Hw. exact Hn.
Qed.

(* ===================================================================== *)
(** * More on the string operations: strip and split on a separator *)
(* ===================================================================== *)

Lemma contains_In c s : contains c s = true <-> In c s.
Proof.
  unfold contains. rewrite existsb_exists. split.
  - intros (x & Hin & Heq). apply N.eqb_eq in Heq. subst. exact Hin.
  - intros Hin. exists c. split; [exact Hin | apply N.eqb_refl].
Qed.

Lemma lstrip_decomp s :
  exists pre, s = pre ++ lstrip s /\ Forall (fun c => isspace c = true) pre.
Proof.
  induction s as [|c s (pre & Hs & Hpre)]; simpl.
  - exists []. split; [reflexivity | constructor].
  - destruct (isspace c) eqn:Ec.
    + exists (c :: pre). split; [simpl; congruence | constructor; assumption].
    + exists []. split; [reflexivity | constructor].
Qed.

Lemma lstrip_head s :
  lstrip s = [] \/ exists c r, lstrip s = c :: r /\ isspace c = false.
Proof.
  induction s as [|c s IH]; simpl; [left; reflexivity|].
  destruct (isspace c) eqn:Ec; [exact IH|]. right. eauto.
Qed.

Lemma lstrip_id s :
  s = [] \/ (exists c r, s = c :: r /\ isspace c = false) -> lstrip s = s.
Proof.
  intros [-> | (c & r & -> & Hc)]; [reflexivity|]. simpl. rewrite Hc.
  reflexivity.
Qed.

Lemma lstrip_idem s : lstrip (lstrip s) = lstrip s.
Proof. apply lstrip_id. apply lstrip_head. Qed.

Lemma rstrip_decomp s : exists post, s = rstrip s ++ post.
Proof.
  unfold rstrip. destruct (lstrip_decomp (rev s)) as (pre & Hs & _).
  exists (rev pre). rewrite <- rev_app_distr, <- Hs, rev_involutive.
  reflexivity.
Qed.

Lemma strip_idem s : strip (strip s) = strip s.
Proof.
  unfold strip.
  assert (Hr : forall x, rstrip (rstrip x) = rstrip x).
  { intros x. unfold rstrip. rewrite rev_involutive, lstrip_idem. reflexivity. }
  assert (Hl : lstrip (rstrip (lstrip s)) = rstrip (lstrip s)).
  { apply lstrip_id. destruct (rstrip_decomp (lstrip s)) as (post & Hpost).
    destruct (rstrip (lstrip s)) as [|c r] eqn:Hy; [left; reflexivity|].
    right. exists c, r. split; [reflexivity|].
    destruct (lstrip_head s) as [Hnil | (c' & r' & Hc' & Hsp)].
    - rewrite Hnil in Hpost. discriminate.
    - rewrite Hc' in Hpost. simpl in Hpost. injection Hpost as -> _.
      exact Hsp. }
  rewrite Hl. apply Hr.
Qed.

Lemma strip_In c s : In c (strip s) -> In c s.
Proof.
  unfold strip. intros H.
  destruct (rstrip_decomp (lstrip s)) as (post & Hpost).
  destruct (lstrip_decomp s) as (pre & Hpre & _).
  rewrite Hpre, Hpost. apply in_or_app. right. apply in_or_app. left.
  exact H.
Qed.

Lemma split_on_nonempty sep s : split_on sep s <> [].
Proof.
  destruct s as [|c s]; simpl; [discriminate|].
  destruct (c =? sep)%N; [discriminate|].
  destruct (split_on sep s); discriminate.
Qed.

(** Joining the pieces with the separator gives the text back. *)
Lemma join_split_on sep s : join [sep] (split_on sep s) = s.
Proof.
  induction s as [|c s IH]; [reflexivity|]. simpl.
  pose proof (split_on_nonempty sep s) as Hne.
  destruct (c =? sep)%N eqn:Ec.
  - apply N.eqb_eq in Ec. subst c. rewrite join_cons by exact Hne.
    simpl. rewrite IH. reflexivity.
  - destruct (split_on sep s) as [|piece pieces]; [congruence|].
    destruct pieces as [|p pieces].
    + simpl in *. congruence.
    + rewrite join_cons by discriminate.
      rewrite join_cons in IH by discriminate.
      simpl. rewrite <- IH. reflexivity.
Qed.

Lemma split_on_pieces sep s :
  Forall (fun piece => ~ In sep piece) (split_on sep s).
Proof.
  induction s as [|c s IH]; simpl.
  - constructor; [intros [] | constructor].
  - destruct (c =? sep)%N eqn:Ec.
    + constructor; [intros [] | exact IH].
    + destruct (split_on sep s) as [|piece pieces]; constructor.
      * intros [<- | []]. rewrite N.eqb_refl in Ec. discriminate.
      * constructor.
      * inversion IH as [|? ? Hp _]; subst. intros [<- | Hin].
        -- rewrite N.eqb_refl in Ec. discriminate.
        -- apply Hp. exact Hin.
      * inversion IH; assumption.
Qed.

Lemma split_on_piece sep l :
  ~ In sep l -> split_on sep l = [l].
Proof.
  induction l as [|c l IH]; intros H; [reflexivity|]. simpl.
  destruct (c =? sep)%N eqn:Ec.
  - apply N.eqb_eq in Ec. subst. exfalso. apply H. left. reflexivity.
  - rewrite IH; [reflexivity|]. intros Hin. apply H. right. exact Hin.
Qed.

Lemma split_on_app sep l s :
  ~ In sep l -> split_on sep (l ++ sep :: s) = l :: split_on sep s.
Proof.
  induction l as [|c l IH]; intros H; simpl.
  - rewrite N.eqb_refl. reflexivity.
  - destruct (c =? sep)%N eqn:Ec.
    + apply N.eqb_eq in Ec. subst. exfalso. apply H. left. reflexivity.
    + rewrite IH; [reflexivity|]. intros Hin. apply H. right. exact Hin.
Qed.

(** Splitting a join of separator-free pieces gives the pieces back. *)
Lemma split_on_join sep ls :
  ls <> [] -> Forall (fun l => ~ In sep l) ls ->
  split_on sep (join [sep] ls) = ls.
Proof.
  induction ls as [|l ls IH]; intros Hne H; [congruence|].
  inversion H as [|? ? Hl Hls]; subst.
  destruct ls as [|l' ls'].
  - simpl. apply split_on_piece. exact Hl.
  - rewrite join_cons by discriminate.
    change (l ++ [sep] ++ join [sep] (l' :: ls'))
      with (l ++ sep :: join [sep] (l' :: ls')).
    rewrite split_on_app by exact Hl. rewrite IH; [reflexivity| discriminate |].
    exact Hls.
Qed.

Lemma In_join sep ls l c : In l ls -> In c l -> In c (join sep ls).
Proof.
  induction ls as [|x ls IH]; intros Hl Hc; [destruct Hl|].
  destruct ls as [|y ls'].
  - destruct Hl as [-> | []]. exact Hc.
  - rewrite join_cons by discriminate. destruct Hl as [-> | Hl].
    + apply in_or_app. left. exact Hc.
    + apply in_or_app. right. apply in_or_app. right. apply IH; assumption.
Qed.

(* ===================================================================== *)
(** * More on the manual parser *)
(* ===================================================================== *)

Lemma manual_closed_form (response_text : str) :
  _parse_questions_manually response_text
  = List.map (fun line => JDict (manual_record line))
      (List.filter likely_question
         (List.map strip (split_on NEWLINE response_text))).
Proof.
  unfold _parse_questions_manually.
  pose proof (manual_loop_flush (split_on NEWLINE response_text) ([], [])) as H.
  destruct (fold_left manual_step (split_on NEWLINE response_text) ([], []))
    as [questions current_question].
  exact H.
Qed.

Lemma filter_all {A} (f : A -> bool) l :
  Forall (fun x => f x = true) l -> List.filter f l = l.
Proof.
  induction l as [|x l IH]; intros H; [reflexivity|].
  inversion H as [|? ? Hx Hl]; subst. simpl. rewrite Hx, IH by exact Hl.
  reflexivity.
Qed.

Lemma filter_none {A} (f : A -> bool) l :
  Forall (fun x => f x = false) l -> List.filter f l = [].
Proof.
  induction l as [|x l IH]; intros H; [reflexivity|].
  inversion H as [|? ? Hx Hl]; subst. simpl. rewrite Hx. apply IH. exact Hl.
Qed.

Lemma filter_sound {A} (f : A -> bool) l :
  Forall (fun x => f x = true) (List.filter f l).
Proof.
  induction l as [|x l IH]; simpl; [constructor|].
  destruct (f x) eqn:Hx; [constructor; assumption | exact IH].
Qed.

(** The trimmed lines of a text: free of newlines and trimmed. *)
Lemma stripped_lines text :
  Forall (fun l => ~ In NEWLINE l /\ strip l = l)
    (List.map strip (split_on NEWLINE text)).
Proof.
  pose proof (split_on_pieces NEWLINE text) as H.
  induction H as [|p ps Hp _ IH]; simpl; constructor; [|exact IH].
  split; [|apply strip_idem]. intros Hin. apply Hp. apply strip_In. exact Hin.
Qed.

Lemma Forall_filter {A} (P : A -> Prop) (f : A -> bool) l :
  Forall P l -> Forall P (List.filter f l).
Proof.
  induction 1 as [|x l Hx _ IH]; simpl; [constructor|].
  destruct (f x); [constructor; assumption | exact IH].
Qed.

(** No question mark, no question: a response without a question mark
    gives the empty list, whatever else it holds. *)
Theorem parse_manually_without_question_mark (response_text : str) :
  contains QUESTION_MARK response_text = false ->
  _parse_questions_manually response_text = [].
Proof.
  intros Hno. rewrite manual_closed_form, filter_none; [reflexivity|].
  apply Forall_forall. intros l Hl.
  apply list_elem_of_In, in_map_iff in Hl. destruct Hl as (p & <- & Hp).
  unfold likely_question.
  destruct (contains QUESTION_MARK (strip p)) eqn:Hc; [|reflexivity].
  exfalso. apply contains_In, strip_In in Hc.
  assert (Hin : In QUESTION_MARK response_text).
  { rewrite <- (join_split_on NEWLINE response_text).
    eapply In_join; eassumption. }
  apply contains_In in Hin. congruence.
Qed.

Lemma parse_manually_without_question_mark_witness :
  _parse_questions_manually
    (join [NEWLINE] [lit "No questions were asked in this part.";
                     lit "The speaker only describes the build."]) = [].
Proof.
  apply parse_manually_without_question_mark. vm_compute. reflexivity.
Defined.

Lemma question_of_manual ls :
  List.map question_of (List.map (fun l => JDict (manual_record l)) ls) = ls.
Proof.
  induction ls as [|l ls IH]; [reflexivity|]. simpl. rewrite IH.
  reflexivity.
Qed.

(** Round trip. Every record of the manual parser holds a trimmed line with
    a question mark and more than 10 characters; and writing the questions
    it found one per line and parsing that text again gives the same
    records. *)
Theorem parse_manually_round_trip (response_text : str) :
  let records := _parse_questions_manually response_text in
  Forall (fun q => q = JDict (manual_record (question_of q))
                   /\ likely_question (question_of q) = true
                   /\ strip (question_of q) = question_of q) records
  /\ _parse_questions_manually
       (join [NEWLINE] (List.map question_of records)) = records.
Proof.
  intros records. subst records. rewrite manual_closed_form.
  set (ls := List.filter likely_question
               (List.map strip (split_on NEWLINE response_text))).
  assert (Hlikely : Forall (fun l => likely_question l = true) ls)
    by apply filter_sound.
  assert (Hlines : Forall (fun l => ~ In NEWLINE l /\ strip l = l) ls)
    by (apply Forall_filter, stripped_lines).
  split.
  - apply Forall_forall. intros q Hq.
    apply list_elem_of_In, in_map_iff in Hq. destruct Hq as (l & <- & Hl).
    rewrite Forall_forall in Hlikely, Hlines. apply list_elem_of_In in Hl.
    simpl. split; [reflexivity|]. split; [apply Hlikely | apply Hlines]; exact Hl.
  - rewrite question_of_manual, manual_closed_form.
    destruct ls as [|l ls'] eqn:Els; [reflexivity|].
    rewrite split_on_join;
      [| discriminate
       | eapply List.Forall_impl; [|exact Hlines]; intros a [Ha _]; exact Ha ].
    assert (Hs : List.map strip (l :: ls') = l :: ls').
    { clear - Hlines. induction Hlines as [|a r [_ Ha] _ IH]; [reflexivity|].
      simpl. rewrite Ha. f_equal. exact IH. }
    rewrite Hs, filter_all by exact Hlikely. reflexivity.
Qed.

(* ===================================================================== *)
(** * More on the report: what each bucket holds *)
(* ===================================================================== *)

Lemma three_keys_filter key default (a b c : str) :
  grouping_is_filter key default [a; b; c]
    (<[a := []]> (<[b := []]> (<[c := []]> ∅))) [].
Proof.
  intros k. simpl. unfold str_eqb.
  rewrite !lookup_insert, lookup_empty.
  repeat case_decide; subst;
    repeat (rewrite bool_decide_eq_true_2 by reflexivity);
    repeat (rewrite bool_decide_eq_false_2 by congruence);
    simpl; try reflexivity; congruence.
Qed.

Lemma bucket_append_filter key default allowed m seen entries m' :
  grouping_is_filter key default allowed m seen ->
  bucket_append m (field_or entries key default) (JDict entries) = Ok m' ->
  grouping_is_filter key default allowed m' (seen ++ [JDict entries]).
Proof.
  intros Hinv Happ k. unfold bucket_append in Happ.
  destruct (field_or entries key default) as [| | | |k0| |] eqn:Hf;
    try discriminate.
  destruct (m !! k0) as [l|] eqn:Hk0; [|discriminate].
  injection Happ as <-.
  rewrite List.filter_app. simpl. rewrite Hf. unfold str_eqb at 2.
  destruct (decide (k0 = k)) as [<- | Hne].
  - rewrite lookup_insert_eq, bool_decide_eq_true_2 by reflexivity.
    specialize (Hinv k0). rewrite Hk0 in Hinv.
    destruct (existsb (str_eqb k0) allowed); [|discriminate].
    injection Hinv as ->. reflexivity.
  - rewrite lookup_insert_ne by exact Hne.
    rewrite bool_decide_eq_false_2 by exact Hne. rewrite app_nil_r.
    apply Hinv.
Qed.

Lemma categorize_filter r q r' seen :
  grouping_is_filter KEY_SPEAKER UNKNOWN SPEAKERS (by_speaker r) seen ->
  grouping_is_filter KEY_TYPE GENERAL TYPES (by_type r) seen ->
  categorize r q = Ok r' ->
  grouping_is_filter KEY_SPEAKER UNKNOWN SPEAKERS (by_speaker r') (seen ++ [q])
  /\ grouping_is_filter KEY_TYPE GENERAL TYPES (by_type r') (seen ++ [q]).
Proof.
  intros Hs Ht Hc. destruct q as [| | | | | |entries]; try discriminate.
  unfold categorize in Hc. simpl in Hc.
  fold (field_or entries KEY_SPEAKER UNKNOWN) in Hc.
  fold (field_or entries KEY_TYPE GENERAL) in Hc.
  destruct (bucket_append (by_speaker r) _ _) as [bs|] eqn:Hbs; [|discriminate].
  destruct (bucket_append (by_type r) _ _) as [bt|] eqn:Hbt; [|discriminate].
  simpl in Hc. injection Hc as <-. simpl. split.
  - eapply bucket_append_filter; eassumption.
  - eapply bucket_append_filter; eassumption.
Qed.

Lemma categorize_all_filter qs : forall r r' seen,
  grouping_is_filter KEY_SPEAKER UNKNOWN SPEAKERS (by_speaker r) seen ->
  grouping_is_filter KEY_TYPE GENERAL TYPES (by_type r) seen ->
  categorize_all r qs = Ok r' ->
  grouping_is_filter KEY_SPEAKER UNKNOWN SPEAKERS (by_speaker r') (seen ++ qs)
  /\ grouping_is_filter KEY_TYPE GENERAL TYPES (by_type r') (seen ++ qs).
Proof.
  induction qs as [|q qs IH]; intros r r' seen Hs Ht Hc; simpl in Hc.
  - injection Hc as <-. rewrite app_nil_r. auto.
  - destruct (categorize r q) as [r1|] eqn:H1; [|discriminate]. simpl in Hc.
    destruct (categorize_filter _ _ _ _ Hs Ht H1) as [Hs1 Ht1].
    destruct (IH _ _ _ Hs1 Ht1 Hc) as [Hs' Ht'].
    rewrite <- app_assoc in Hs', Ht'. auto.
Qed.

Lemma organize_questions_filter video qs r :
  organize_questions video qs = Ok r ->
  grouping_is_filter KEY_SPEAKER UNKNOWN SPEAKERS (by_speaker r) qs
  /\ grouping_is_filter KEY_TYPE GENERAL TYPES (by_type r) qs.
Proof.
  unfold organize_questions. intros Hr.
  eapply (categorize_all_filter _ _ _ []) in Hr; [exact Hr | |];
    apply three_keys_filter.
Qed.

(** Buckets are ordered filters. In every report that [save_questions]
    writes, the bucket of a speaker is the list of the questions with that
    (defaulted) speaker, in the order of [all_questions], likewise for the
    types, and the groupings have exactly the keys of the allow-lists. *)
Theorem report_buckets_are_filters
    (json_dump : QuestionReport -> result unit)
    (self : VideoProcessor) (video_path : Path) (questions : list json)
    (fs fs' : filesystem) (file : Path) :
  save_questions json_dump self video_path questions fs = (Ok file, fs') ->
  exists report,
    fs' !! file = Some (Report report)
    /\ (forall k,
          by_speaker report !! k
          = if existsb (str_eqb k) SPEAKERS
            then Some (List.filter (has_field KEY_SPEAKER UNKNOWN k) questions)
            else None)
    /\ (forall k,
          by_type report !! k
          = if existsb (str_eqb k) TYPES
            then Some (List.filter (has_field KEY_TYPE GENERAL k) questions)
            else None).
Proof.
  intros Hsave.
  destruct (save_questions_returned _ _ _ _ _ _ _ Hsave)
    as (r & Hr & _ & _ & ->).
  exists r. split; [apply lookup_insert_eq|].
  apply (organize_questions_filter _ _ _ Hr).
Qed.

Lemma pair_eta {A B} (x : A * B) (a : A) : x.1 = a -> x = (a, x.2).
Proof. destruct x. simpl. intros ->. reflexivity. Qed.

Lemma triple_eta {A B C} (x : A * B * C) (a : A) :
  x.1.1 = a -> x = (a, x.1.2, x.2).
Proof. destruct x as [[? ?] ?]. simpl. intros ->. reflexivity. Qed.

Lemma report_buckets_are_filters_witness :
  exists report,
    (save_questions utf8_dump default_processor SAMPLE_VIDEO
       TEST_QUESTIONS ∅).2
      !! questions_path default_processor SAMPLE_VIDEO = Some (Report report)
    /\ by_speaker report !! INTERVIEWER = Some TEST_QUESTIONS
    /\ by_type report !! GENERAL = Some (List.tl TEST_QUESTIONS).
Proof.
  destruct (report_buckets_are_filters utf8_dump default_processor
              SAMPLE_VIDEO TEST_QUESTIONS ∅
              (save_questions utf8_dump default_processor SAMPLE_VIDEO
                 TEST_QUESTIONS ∅).2
              (questions_path default_processor SAMPLE_VIDEO))
    as (report & Hfile & Hs & Ht).
  - apply pair_eta. vm_compute. reflexivity.
  - exists report. split; [exact Hfile|]. split.
    + rewrite Hs. reflexivity.
    + rewrite Ht. reflexivity.
Defined.



(* ===================================================================== *)
(** * The bracket span of a response *)
(* ===================================================================== *)

Lemma from_first_Some c s t :
  from_first c s = Some t ->
  exists pre r, s = pre ++ c :: r /\ t = c :: r /\ ~ In c pre.
Proof.
  revert t. induction s as [|d s IH]; intros t H; simpl in H; [discriminate|].
  destruct (d =? c)%N eqn:Ed.
  - apply N.eqb_eq in Ed. subst d. injection H as <-.
    exists [], s. repeat split. intros [].
  - destruct (IH t H) as (pre & r & -> & -> & Hpre).
    exists (d :: pre), r. repeat split. intros [-> | Hin]; [|auto].
    rewrite N.eqb_refl in Ed. discriminate.
Qed.

Lemma from_first_None c s : from_first c s = None -> ~ In c s.
Proof.
  induction s as [|d s IH]; simpl; intros H; [intros []|].
  destruct (d =? c)%N eqn:Ed; [discriminate|].
  intros [-> | Hin]; [|exact (IH H Hin)].
  rewrite N.eqb_refl in Ed. discriminate.
Qed.

Lemma upto_last_None c s : upto_last c s = None -> ~ In c s.
Proof.
  induction s as [|d s IH]; simpl; intros H; [intros []|].
  destruct (upto_last c s); [discriminate|].
  destruct (d =? c)%N eqn:Ed; [discriminate|].
  intros [-> | Hin]; [|exact (IH eq_refl Hin)].
  rewrite N.eqb_refl in Ed. discriminate.
Qed.

Lemma upto_last_Some c s p :
  upto_last c s = Some p ->
  exists body post, p = body ++ [c] /\ s = p ++ post /\ ~ In c post.
Proof.
  revert p. induction s as [|d s IH]; intros p H; simpl in H; [discriminate|].
  destruct (upto_last c s) as [q|] eqn:Hq.
  - injection H as <-. destruct (IH q eq_refl) as (body & post & -> & -> & Hp).
    exists (d :: body), post. repeat split. exact Hp.
  - destruct (d =? c)%N eqn:Ed; [|discriminate].
    apply N.eqb_eq in Ed. subst d. injection H as <-.
    exists [], s. repeat split. apply upto_last_None. exact Hq.
Qed.

(** The bracket span. When a span is found it is a piece of the text that
    starts at the first opening bracket and ends at the last closing
    bracket of the text; none is found exactly when the text has no opening
    bracket, or has no closing bracket after its first opening one. *)
Theorem search_bracket_span_spec (text : str) :
  match search_bracket_span text with
  | Some span =>
      exists pre body post,
        text = pre ++ span ++ post
        /\ span = LBRACKET :: body ++ [RBRACKET]
        /\ ~ In LBRACKET pre /\ ~ In RBRACKET post
  | None =>
      ~ In LBRACKET text
      \/ exists pre rest,
           text = pre ++ LBRACKET :: rest
           /\ ~ In LBRACKET pre /\ ~ In RBRACKET rest
  end.
Proof.
  unfold search_bracket_span.
  destruct (from_first LBRACKET text) as [t|] eqn:Hf.
  - destruct (from_first_Some _ _ _ Hf) as (pre & r & -> & -> & Hpre).
    destruct (upto_last RBRACKET r) as [p|] eqn:Hu.
    + destruct (upto_last_Some _ _ _ Hu) as (body & post & -> & -> & Hpost).
      exists pre, body, post. repeat split; assumption.
    + right. exists pre, r. repeat split; try assumption.
      apply upto_last_None. exact Hu.
  - left. apply from_first_None. exact Hf.
Qed.

(* ===================================================================== *)
(** * More on the extraction from a transcript *)
(* ===================================================================== *)

Lemma chunk_text_blank (self : VideoProcessor) (text : str) :
  Forall (fun c => isspace c = true) text -> chunk_text self text = [].
Proof.
  intros H. unfold chunk_text. rewrite split_blank by exact H. reflexivity.
Qed.

Lemma chunk_text_single (self : VideoProcessor) (text : str) :
  Exists (fun c => isspace c = false) text ->
  len (normalize text) < MAX_CHUNK_TOKENS self * 4 ->
  chunk_text self text = [normalize text].
Proof.
  intros Hword Hshort. unfold chunk_text, normalize in *.
  assert (Hne : split text <> []).
  { apply split_go_nonempty. right. exact Hword. }
  rewrite len_join in Hshort by exact Hne.
  rewrite chunk_run_fits by lia.
  unfold chunk_finish. simpl.
  destruct (split text); [congruence | reflexivity].
Qed.

Section ExtractionMore.

Context {World : Type}.
Variable ollama_generate : str -> str -> World -> result str * World.
Variable json_loads : str -> result json.

(** Short transcripts. For a transcript without a word the language model
    is not called: the result is empty and the state of the service is
    untouched.  For a transcript with a word that fits the budget there is
    one call, and what the model is shown is the whitespace-normalised
    transcript. *)
Theorem generate_questions_short
    (self : VideoProcessor) (transcript : str) (w : World) :
  (Forall (fun c => isspace c = true) transcript ->
   generate_questions ollama_generate json_loads self transcript w = ([], w))
  /\ (Exists (fun c => isspace c = false) transcript ->
      len (normalize transcript) < MAX_CHUNK_TOKENS self * 4 ->
      generate_questions ollama_generate json_loads self transcript w
      = generate_questions_from_chunk ollama_generate json_loads self
          (normalize transcript) w).
Proof.
  split.
  - intros Hblank. unfold generate_questions.
    rewrite chunk_text_blank by exact Hblank. reflexivity.
  - intros Hword Hshort. unfold generate_questions.
    rewrite chunk_text_single by assumption. simpl.
    destruct (generate_questions_from_chunk _ _ _ _ _) as [qs w1].
    reflexivity.
Qed.

End ExtractionMore.

Lemma generate_questions_short_witness :
  generate_questions (answering SAMPLE_RESPONSE) JsonRef.json_loads
    default_processor (lit "   ") 7%nat = ([], 7%nat)
  /\ generate_questions (answering SAMPLE_RESPONSE) JsonRef.json_loads
       default_processor (lit " Why is  the build slow? ") 7%nat
     = generate_questions_from_chunk (answering SAMPLE_RESPONSE)
         JsonRef.json_loads default_processor
         (lit "Why is the build slow?") 7%nat.
Proof.
  split.
  - apply (proj1 (generate_questions_short (answering SAMPLE_RESPONSE)
                    JsonRef.json_loads default_processor (lit "   ") 7%nat)).
    repeat constructor.
  - apply (proj2 (generate_questions_short (answering SAMPLE_RESPONSE)
                    JsonRef.json_loads default_processor
                    (lit " Why is  the build slow? ") 7%nat)).
    + apply Exists_cons_tl, Exists_cons_hd. reflexivity.
    + vm_compute. reflexivity.
Defined.

(** Concatenation in chunk order. With a language model that keeps no
    state, the questions of a transcript are the questions of its chunks,
    one chunk after the other, with nothing removed: a question found in two
    chunks is listed twice. *)
Theorem generate_questions_concat
    (answer : str -> result str) (json_loads : str -> result json)
    (self : VideoProcessor) (transcript : str) :
  generate_questions (stateless_model answer) json_loads self transcript tt
  = (concat
       (List.map
          (fun chunk =>
             fst (generate_questions_from_chunk (stateless_model answer)
                    json_loads self chunk tt))
          (chunk_text self transcript)),
     tt).
Proof.
  unfold generate_questions. generalize (chunk_text self transcript).
  intros cs. rewrite <- (app_nil_l (concat _)). generalize (@nil json).
  induction cs as [|c cs IH]; intros acc; simpl.
  - rewrite app_nil_r. reflexivity.
  - destruct (generate_questions_from_chunk _ _ _ c tt) as [qs []] eqn:Hc.
    rewrite IH. simpl. rewrite app_assoc. reflexivity.
Qed.

(* ===================================================================== *)
(** * More on the transcription *)
(* ===================================================================== *)

Section TranscriptionMore.

Variable extract_audio : Path -> Path -> filesystem -> result unit * filesystem.
Variable whisper_transcribe : Path -> filesystem -> result str.

Local Abbreviation transcribe :=
  (transcribe_video extract_audio whisper_transcribe).

Lemma transcribe_video_ok video fs text fs' :
  transcribe video fs = (Ok text, fs') ->
  exists u fs1 raw,
    extract_audio video (scratch_path video) fs = (Ok u, fs1)
    /\ whisper_transcribe (scratch_path video) fs1 = Ok raw
    /\ text = strip raw /\ fs' = delete (scratch_path video) fs1.
Proof.
  unfold transcribe_video, scratch_path. intros H.
  destruct (extract_audio _ _ _) as [[u|e] fs1] eqn:Hx; [|discriminate].
  destruct (whisper_transcribe _ _) as [raw|e] eqn:Hw; [|discriminate].
  injection H as <- <-. exists u, fs1, raw. repeat split; assumption.
Qed.

(** A returned transcript is trimmed, it is the trimmed text of the
    recogniser, and no file is left at the scratch path, not even one that
    was there before the call. *)
Theorem transcribe_video_success video fs text fs' :
  transcribe video fs = (Ok text, fs') ->
  strip text = text
  /\ (exists raw fs1,
        whisper_transcribe (scratch_path video) fs1 = Ok raw
        /\ text = strip raw)
  /\ fs' !! scratch_path video = None.
Proof.
  intros H. destruct (transcribe_video_ok _ _ _ _ H)
    as (u & fs1 & raw & _ & Hw & -> & ->).
  split; [apply strip_idem|]. split; [eauto|]. apply lookup_delete_eq.
Qed.

Lemma transcribe_video_untouched video fs p :
  writes_only_audio extract_audio ->
  p <> scratch_path video ->
  snd (transcribe video fs) !! p = fs !! p.
Proof.
  intros Hx Hp. unfold transcribe_video. fold (scratch_path video).
  specialize (Hx video (scratch_path video) fs p Hp).
  destruct (extract_audio _ _ _) as [[u|e] fs1]; simpl in *; [|exact Hx].
  destruct (whisper_transcribe _ _) as [raw|e]; simpl; [|exact Hx].
  rewrite lookup_delete_ne by congruence. exact Hx.
Qed.

(** Whatever the outcome, the transcription changes no file but the
    scratch file, among the files that are not the log of the program,
    when the extractor writes nothing but its target. *)
Theorem transcribe_video_frame video fs p :
  writes_only_audio extract_audio ->
  name p <> LOG_NAME ->
  p <> scratch_path video ->
  snd (transcribe video fs) !! p = fs !! p.
Proof.
  intros Hx _ Hp. unfold transcribe_video. fold (scratch_path video).
  pose proof (Hx video (scratch_path video) fs p Hp) as Hkept.
  destruct (extract_audio _ _ _) as [[u|e] fs1]; simpl in *; [|exact Hkept].
  destruct (whisper_transcribe _ _) as [raw|e]; simpl.
  - rewrite lookup_delete_ne by congruence. exact Hkept.
  - exact Hkept.
Qed.

End TranscriptionMore.

Lemma writes_track_only_audio : writes_only_audio writes_track.
Proof.
  intros video audio fs p Hp. unfold writes_track. simpl.
  apply lookup_insert_ne. congruence.
Qed.

Lemma transcribe_video_success_witness :
  strip (lit "Hello.") = lit "Hello."
  /\ (exists raw fs1,
        recognizer_says (lit " Hello. ") (scratch_path SAMPLE_VIDEO) fs1 = Ok raw
        /\ lit "Hello." = strip raw)
  /\ (∅ : filesystem) !! scratch_path SAMPLE_VIDEO = None.
Proof.
  apply (transcribe_video_success writes_track
           (recognizer_says (lit " Hello. ")) SAMPLE_VIDEO ∅).
  vm_compute. reflexivity.
Defined.

Lemma transcribe_video_frame_witness :
  snd (transcribe_video writes_track recognizer_fails SAMPLE_VIDEO
         (<[SAMPLE_VIDEO := Audio SAMPLE_VIDEO]> ∅))
    !! SAMPLE_VIDEO
  = (<[SAMPLE_VIDEO := Audio SAMPLE_VIDEO]> ∅ : filesystem) !! SAMPLE_VIDEO.
Proof.
  apply (transcribe_video_frame writes_track recognizer_fails).
  - exact writes_track_only_audio.
  - vm_compute. discriminate.
  - vm_compute. discriminate.
Defined.

(* ===================================================================== *)
(** * Processing one video *)
(* ===================================================================== *)

Lemma transcript_not_questions self v1 v2 :
  transcript_path self v1 <> questions_path self v2.
Proof. intros H. apply (f_equal suffix) in H. vm_compute in H. discriminate. Qed.

Lemma scratch_not_transcript self v1 v2 :
  scratch_path v1 <> transcript_path self v2.
Proof. intros H. apply (f_equal suffix) in H. vm_compute in H. discriminate. Qed.

Lemma scratch_not_questions self v1 v2 :
  scratch_path v1 <> questions_path self v2.
Proof. intros H. apply (f_equal suffix) in H. vm_compute in H. discriminate. Qed.

Section PipelineFacts.

Context {World : Type}.
Variable extract_audio : Path -> Path -> filesystem -> result unit * filesystem.
Variable whisper_transcribe : Path -> filesystem -> result str.
Variable ollama_generate : str -> str -> World -> result str * World.
Variable json_loads : str -> result json.
Variable json_dump : QuestionReport -> result unit.
Variable lower : str -> str.

Local Abbreviation transcribe :=
  (transcribe_video extract_audio whisper_transcribe).
Local Abbreviation questions_of :=
  (generate_questions ollama_generate json_loads).
Local Abbreviation process :=
  (process_video extract_audio whisper_transcribe ollama_generate json_loads
     json_dump).
Local Abbreviation process_list :=
  (process_each extract_audio whisper_transcribe ollama_generate json_loads
     json_dump).

(** The run of [process_video] after a transcription that returned. *)
Lemma process_video_transcribed self video fs w transcript fs1 :
  transcribe video fs = (Ok transcript, fs1) ->
  process self video fs w
  = match save_questions json_dump self video
            (fst (questions_of self transcript w))
            (<[transcript_path self video := Text transcript]> fs1) with
    | (Raise e, fs3) => (Raise e, fs3, snd (questions_of self transcript w))
    | (Ok questions_file, fs3) =>
        (Ok (transcript_path self video, questions_file), fs3,
         snd (questions_of self transcript w))
    end.
Proof.
  intros Ht. unfold process_video. rewrite Ht. unfold save_transcript.
  fold (transcript_path self video).
  destruct (questions_of self transcript w) as [qs w1]. reflexivity.
Qed.

(** What a successful run leaves. The two paths returned are the
    transcript path and the report path of the video; the transcription of
    the video returned a transcript, which is trimmed and is what the
    transcript file holds; the questions extracted from that transcript,
    from the state of the language model before the run, were bucketed
    into a report named after the video, which the dump accepted and the
    report file holds; the file system is the one the transcription left
    with these two files written; and no file is left at the scratch
    path. *)
Theorem process_video_success self video fs w tf qf fs' w' :
  process self video fs w = (Ok (tf, qf), fs', w') ->
  tf = transcript_path self video /\ qf = questions_path self video
  /\ exists transcript fs1 report,
       transcribe video fs = (Ok transcript, fs1)
       /\ questions_of self transcript w = (all_questions report, w')
       /\ organize_questions video (all_questions report) = Ok report
       /\ json_dump report = Ok tt
       /\ fs' = <[qf := Report report]> (<[tf := Text transcript]> fs1)
       /\ fs' !! tf = Some (Text transcript)
       /\ strip transcript = transcript
       /\ fs' !! qf = Some (Report report)
       /\ video_name report = name video
       /\ fs' !! scratch_path video = None.
Proof.
  intros H.
  destruct (transcribe video fs) as [[transcript|e] fs1] eqn:Ht.
  2:{ unfold process_video in H. rewrite Ht in H. discriminate. }
  rewrite (process_video_transcribed _ _ _ _ _ _ Ht) in H.
  destruct (questions_of self transcript w) as [qs w1] eqn:Hq. simpl in H.
  destruct (save_questions json_dump self video qs _) as [[file|e] fs3] eqn:Hs;
    [|discriminate].
  injection H as <- <- <- <-.
  destruct (save_questions_returned _ _ _ _ _ _ _ Hs)
    as (r & Hr & Hd & -> & ->).
  split; [reflexivity|]. split; [reflexivity|].
  destruct (organize_questions_ok _ _ _ Hr) as (_ & _ & Hname & _ & Hall).
  destruct (transcribe_video_ok _ _ _ _ _ _ Ht)
    as (u & fs0 & raw & _ & _ & Hraw & Hfs1).
  assert (Hstrip : strip transcript = transcript)
    by (rewrite Hraw; apply strip_idem).
  assert (Hscratch : fs1 !! scratch_path video = None)
    by (rewrite Hfs1; apply lookup_delete_eq).
  exists transcript, fs1, r.
  split; [reflexivity|]. split; [rewrite Hall; exact Hq|].
  split; [rewrite Hall; exact Hr|]. split; [exact Hd|].
  split; [reflexivity|].
  split; [|split; [|split; [|split]]].
  - rewrite lookup_insert_ne by (apply not_eq_sym, transcript_not_questions).
    apply lookup_insert_eq.
  - exact Hstrip.
  - apply lookup_insert_eq.
  - exact Hname.
  - rewrite lookup_insert_ne by (apply not_eq_sym, scratch_not_questions).
    rewrite lookup_insert_ne by (apply not_eq_sym, scratch_not_transcript).
    exact Hscratch.
Qed.

Lemma process_video_untouched self video fs w p :
  writes_only_audio extract_audio ->
  p <> scratch_path video ->
  p <> transcript_path self video ->
  p <> questions_path self video ->
  (process self video fs w).1.2 !! p = fs !! p.
Proof.
  intros Hx Hs Ht Hq.
  pose proof (transcribe_video_untouched extract_audio whisper_transcribe
                video fs p Hx Hs) as Hframe.
  unfold process_video.
  destruct (transcribe video fs) as [[transcript|e] fs1]; simpl in *;
    [|exact Hframe].
  unfold save_transcript. fold (transcript_path self video).
  destruct (questions_of self transcript w) as [qs w1].
  unfold save_questions.
  destruct (organize_questions video qs) as [r|]; simpl.
  - destruct (json_dump r); simpl;
      rewrite !lookup_insert_ne by congruence; exact Hframe.
  - rewrite lookup_insert_ne by congruence. exact Hframe.
Qed.

(** Frame. Whatever the outcome, a run changes no file but the scratch
    file, the transcript file and the report file of its video, among the
    files that are not the log of the program, when the extractor writes
    nothing but its target. *)
Theorem process_video_frame self video fs w p :
  writes_only_audio extract_audio ->
  name p <> LOG_NAME ->
  p <> scratch_path video ->
  p <> transcript_path self video ->
  p <> questions_path self video ->
  (process self video fs w).1.2 !! p = fs !! p.
Proof.
  intros Hx _ Hs Ht Hq. unfold process_video.
  pose proof (transcribe_video_untouched extract_audio whisper_transcribe
                video fs p Hx Hs) as Hkept.
  destruct (transcribe video fs) as [[transcript|e] fs1]; simpl in *;
    [|exact Hkept].
  unfold save_transcript, save_questions.
  fold (transcript_path self video).
  destruct (questions_of self transcript w) as [qs w1].
  destruct (organize_questions video qs) as [r|]; simpl;
    [destruct (json_dump r); simpl|];
    rewrite ?lookup_insert_ne by congruence; exact Hkept.
Qed.





End PipelineFacts.

Lemma process_video_success_witness :
  exists transcript fs1 report,
    transcribe_video writes_track
      (recognizer_says (lit " Why is the build slow? ")) SAMPLE_VIDEO ∅
    = (Ok transcript, fs1)
    /\ generate_questions (answering SAMPLE_RESPONSE) JsonRef.json_loads
         default_processor transcript 0%nat
       = (all_questions report, SAMPLE_RUN.2)
    /\ organize_questions SAMPLE_VIDEO (all_questions report) = Ok report
    /\ utf8_dump report = Ok tt
    /\ SAMPLE_RUN.1.2
       = <[questions_path default_processor SAMPLE_VIDEO := Report report]>
           (<[transcript_path default_processor SAMPLE_VIDEO
                := Text transcript]> fs1)
    /\ SAMPLE_RUN.1.2 !! transcript_path default_processor SAMPLE_VIDEO
       = Some (Text transcript)
    /\ strip transcript = transcript
    /\ SAMPLE_RUN.1.2 !! questions_path default_processor SAMPLE_VIDEO
       = Some (Report report)
    /\ video_name report = name SAMPLE_VIDEO
    /\ SAMPLE_RUN.1.2 !! scratch_path SAMPLE_VIDEO = None.
Proof.
  refine (proj2 (proj2 (process_video_success writes_track
            (recognizer_says (lit " Why is the build slow? "))
            (answering SAMPLE_RESPONSE) JsonRef.json_loads utf8_dump
            default_processor SAMPLE_VIDEO ∅ 0%nat
            (transcript_path default_processor SAMPLE_VIDEO)
            (questions_path default_processor SAMPLE_VIDEO)
            SAMPLE_RUN.1.2 SAMPLE_RUN.2 _))).
  apply (triple_eta SAMPLE_RUN). vm_compute. reflexivity.
Defined.

Lemma process_video_frame_witness :
  (process_video writes_track recognizer_fails (answering SAMPLE_RESPONSE)
     JsonRef.json_loads utf8_dump default_processor SAMPLE_VIDEO
     (<[SAMPLE_VIDEO := Audio SAMPLE_VIDEO]> ∅) 0%nat).1.2 !! SAMPLE_VIDEO
  = (<[SAMPLE_VIDEO := Audio SAMPLE_VIDEO]> ∅ : filesystem) !! SAMPLE_VIDEO.
Proof.
  apply (process_video_frame writes_track recognizer_fails
           (answering SAMPLE_RESPONSE) JsonRef.json_loads utf8_dump).
  - exact writes_track_only_audio.
  - vm_compute. discriminate.
  - vm_compute. discriminate.
  - vm_compute. discriminate.
  - vm_compute. discriminate.
Defined.




(* ===================================================================== *)
(** * Discovery *)
(* ===================================================================== *)

Lemma str_leb_refl a : str_leb a a = true.
Proof.
  induction a as [|x a IH]; [reflexivity|]. simpl.
  rewrite N.ltb_irrefl, N.eqb_refl. exact IH.
Qed.

Lemma str_leb_total a : forall b, str_leb a b = false -> str_leb b a = true.
Proof.
  induction a as [|x a IH]; intros [|y b] H; simpl in *; try congruence.
  destruct (x <? y)%N eqn:Hlt; [discriminate|].
  destruct (x =? y)%N eqn:Heq.
  - apply N.eqb_eq in Heq. subst y. rewrite N.ltb_irrefl, N.eqb_refl.
    apply IH. exact H.
  - apply N.ltb_ge in Hlt. apply N.eqb_neq in Heq.
    assert (Hyx : (y <? x)%N = true) by (apply N.ltb_lt; lia).
    rewrite Hyx. reflexivity.
Qed.

Lemma str_leb_trans a : forall b c,
  str_leb a b = true -> str_leb b c = true -> str_leb a c = true.
Proof.
  induction a as [|x a IH]; intros [|y b] [|z c] Hab Hbc; simpl in *;
    try congruence.
  destruct (x <? y)%N eqn:Hxy.
  - apply N.ltb_lt in Hxy. destruct (y <? z)%N eqn:Hyz.
    + apply N.ltb_lt in Hyz.
      assert (H : (x <? z)%N = true) by (apply N.ltb_lt; lia).
      rewrite H. reflexivity.
    + destruct (y =? z)%N eqn:Eyz; [|discriminate].
      apply N.eqb_eq in Eyz. subst z.
      assert (H : (x <? y)%N = true) by (apply N.ltb_lt; lia).
      rewrite H. reflexivity.
  - destruct (x =? y)%N eqn:Exy; [|discriminate].
    apply N.eqb_eq in Exy. subst y.
    destruct (x <? z)%N; [reflexivity|].
    destruct (x =? z)%N; [|discriminate].
    eapply IH; eassumption.
Qed.

Lemma insert_sorted_perm p l : Permutation (insert_sorted p l) (p :: l).
Proof.
  induction l as [|q l IH]; simpl; [reflexivity|].
  destruct (path_leb p q); [reflexivity|].
  rewrite IH. apply perm_swap.
Qed.

Lemma sorted_perm l : Permutation (sorted l) l.
Proof.
  induction l as [|p l IH]; simpl; [reflexivity|].
  rewrite insert_sorted_perm, IH. reflexivity.
Qed.

Lemma insert_sorted_strongly p l :
  StronglySorted path_le l -> StronglySorted path_le (insert_sorted p l).
Proof.
  induction 1 as [|q l Hl IH Hq]; simpl.
  - constructor; constructor.
  - destruct (path_leb p q) eqn:Hpq.
    + constructor; [constructor; assumption|].
      constructor; [exact Hpq|].
      eapply List.Forall_impl; [|exact Hq]. intros r Hr.
      unfold path_le, path_leb in *. eapply str_leb_trans; eassumption.
    + constructor; [exact IH|].
      apply List.Forall_forall. intros r Hr.
      apply (Permutation_in _ (insert_sorted_perm p l)) in Hr.
      destruct Hr as [<- | Hr].
      * apply str_leb_total. exact Hpq.
      * rewrite List.Forall_forall in Hq. apply Hq. exact Hr.
Qed.

Lemma sorted_strongly l : StronglySorted path_le (sorted l).
Proof.
  induction l as [|p l IH]; simpl; [constructor|].
  apply insert_sorted_strongly. exact IH.
Qed.

Lemma existsb_str_eqb x l : existsb (str_eqb x) l = true <-> In x l.
Proof.
  rewrite existsb_exists. unfold str_eqb. split.
  - intros (y & Hin & Heq). apply bool_decide_eq_true in Heq. subst. exact Hin.
  - intros Hin. exists x. split; [exact Hin | apply bool_decide_eq_true_2].
    reflexivity.
Qed.

Lemma find_video_files_In lower working_dir listing p :
  In p (find_video_files lower working_dir listing)
  <-> exists e,
        In e listing /\ p = entry_path working_dir e
        /\ entry_is_file e = true
        /\ In (lower (entry_suffix e)) SUPPORTED_EXTENSIONS.
Proof.
  unfold find_video_files.
  pose proof (sorted_perm
                (List.map (entry_path working_dir)
                   (List.filter (is_video lower) listing))) as Hperm.
  split.
  - intros Hin. apply (Permutation_in _ Hperm), in_map_iff in Hin.
    destruct Hin as (e & <- & He). apply filter_In in He.
    destruct He as [He Hv]. unfold is_video in Hv.
    apply andb_prop in Hv. destruct Hv as [Hf Hs].
    exists e. repeat split; try assumption.
    apply existsb_str_eqb. exact Hs.
  - intros (e & He & -> & Hf & Hs).
    apply (Permutation_in _ (Permutation_sym Hperm)), in_map.
    apply filter_In. split; [exact He|]. unfold is_video.
    rewrite Hf. apply existsb_str_eqb in Hs. rewrite Hs. reflexivity.
Qed.

(** Discovery. The files found are in the order of their names; they are
    the entries that are files and whose lower-cased suffix is a supported
    extension, each as often as it is listed; a directory is never found,
    whatever its name. *)
Theorem find_video_files_spec
    (lower : str -> str) (working_dir : str) (listing : list DirEntry) :
  let found := find_video_files lower working_dir listing in
  StronglySorted path_le found
  /\ Permutation found
       (List.map (entry_path working_dir)
          (List.filter (is_video lower) listing))
  /\ (forall p,
        In p found
        <-> exists e,
              In e listing /\ p = entry_path working_dir e
              /\ entry_is_file e = true
              /\ In (lower (entry_suffix e)) SUPPORTED_EXTENSIONS)
  /\ (length found <= length listing)%nat.
Proof.
  intros found. subst found.
  split; [apply sorted_strongly|]. split; [apply sorted_perm|].
  split; [intros p; apply find_video_files_In|].
  unfold find_video_files.
  rewrite (Permutation_length (sorted_perm _)), length_map.
  induction listing as [|e l IH]; simpl; [lia|].
  destruct (is_video lower e); simpl; lia.
Qed.

(** The directory of the repository's test, with an upper-case suffix and a
    directory named like a video. *)
Example find_video_files_test :
  List.map name (find_video_files ascii_lower (lit "/videos") TEST_LISTING)
  = [lit "video1.MP4"; lit "video2.avi"; lit "video3.mov"].
Proof. vm_compute. reflexivity. Qed.

(* ===================================================================== *)
(** * Processing all videos *)
(* ===================================================================== *)

Section BatchFacts.

Context {World : Type}.
Variable extract_audio : Path -> Path -> filesystem -> result unit * filesystem.
Variable whisper_transcribe : Path -> filesystem -> result str.
Variable ollama_generate : str -> str -> World -> result str * World.
Variable json_loads : str -> result json.
Variable json_dump : QuestionReport -> result unit.
Variable lower : str -> str.

Local Abbreviation process :=
  (process_video extract_audio whisper_transcribe ollama_generate json_loads
     json_dump).
Local Abbreviation process_list :=
  (process_each extract_audio whisper_transcribe ollama_generate json_loads
     json_dump).
Local Abbreviation process_all :=
  (process_all_videos extract_audio whisper_transcribe ollama_generate
     json_loads json_dump lower).

Lemma process_each_app self vs1 vs2 : forall fs w,
  process_list self (vs1 ++ vs2) fs w
  = process_list self vs2 (process_list self vs1 fs w).1
      (process_list self vs1 fs w).2.
Proof.
  induction vs1 as [|v vs1 IH]; intros fs w; simpl; [reflexivity|].
  destruct (process self v fs w) as [[r fs1] w1]. apply IH.
Qed.

Lemma process_all_is_each self working_dir listing fs w :
  process_all self working_dir listing fs w
  = process_list self (find_video_files lower working_dir listing) fs w.
Proof.
  unfold process_all_videos.
  destruct (find_video_files lower working_dir listing); reflexivity.
Qed.

(** One bad video does not stop the batch. When the run of a discovered
    video raises, whatever the exception, the batch goes on with the videos
    after it, from the state the failed run left; the batch itself raises
    nothing. *)
Theorem process_all_videos_isolation
    self working_dir listing fs w before video after fs1 w1 e fs2 w2 :
  find_video_files lower working_dir listing = before ++ video :: after ->
  process_list self before fs w = (fs1, w1) ->
  process self video fs1 w1 = (Raise e, fs2, w2) ->
  process_all self working_dir listing fs w
  = process_list self after fs2 w2.
Proof.
  intros Hfound Hbefore Hfail.
  rewrite process_all_is_each, Hfound, process_each_app, Hbefore. simpl.
  rewrite Hfail. reflexivity.
Qed.

Lemma process_each_frame self videos p :
  writes_only_audio extract_audio ->
  Forall (fun v => p <> scratch_path v /\ p <> transcript_path self v
                   /\ p <> questions_path self v) videos ->
  forall fs w, (process_list self videos fs w).1 !! p = fs !! p.
Proof.
  intros Hx H. induction H as [|v vs (Hs & Ht & Hq) _ IH]; intros fs w; simpl;
    [reflexivity|].
  pose proof (process_video_untouched extract_audio whisper_transcribe
                ollama_generate json_loads json_dump self v fs w p
                Hx Hs Ht Hq) as Hf.
  destruct (process self v fs w) as [[r fs1] w1]. simpl in Hf.
  rewrite IH. exact Hf.
Qed.

Lemma stem_paths_differ self v v' :
  stem v' <> stem v ->
  transcript_path self v <> transcript_path self v'
  /\ questions_path self v <> questions_path self v'.
Proof.
  intros Hne. split; intros H; apply (f_equal stem) in H; simpl in H;
    apply app_inv_tail in H; congruence.
Qed.

(** Outputs survive the rest of the batch. After a successful run on a
    video, processing further videos with other stems leaves its transcript
    file and its report file as the run wrote them, whether those further
    runs succeed or fail, when the extractor writes nothing but its
    target. *)
Theorem process_video_outputs_survive
    self video rest fs w tf qf fs1 w1 :
  writes_only_audio extract_audio ->
  process self video fs w = (Ok (tf, qf), fs1, w1) ->
  Forall (fun v' => stem v' <> stem video) rest ->
  (process_list self rest fs1 w1).1 !! tf = fs1 !! tf
  /\ (process_list self rest fs1 w1).1 !! qf = fs1 !! qf.
Proof.
  intros Hx Hrun Hstems.
  assert (Hpaths : tf = transcript_path self video
                   /\ qf = questions_path self video).
  { unfold process_video in Hrun.
    destruct (transcribe_video _ _ video fs) as [[t|e] fs0]; [|discriminate].
    unfold save_transcript in Hrun. fold (transcript_path self video) in Hrun.
    destruct (generate_questions _ _ self t w) as [qs w0].
    destruct (save_questions json_dump self video qs _)
      as [[file|e] fs3] eqn:Hs; [|discriminate].
    injection Hrun as <- <- _ _.
    destruct (save_questions_returned _ _ _ _ _ _ _ Hs) as (r & _ & _ & -> & _).
    split; reflexivity. }
  destruct Hpaths as [-> ->]. split; apply process_each_frame; try exact Hx.
  - eapply List.Forall_impl; [|exact Hstems]. intros v' Hne.
    destruct (stem_paths_differ self video v' Hne) as [Ht _].
    split; [apply not_eq_sym, scratch_not_transcript|].
    split; [exact Ht | apply transcript_not_questions].
  - eapply List.Forall_impl; [|exact Hstems]. intros v' Hne.
    destruct (stem_paths_differ self video v' Hne) as [_ Hq].
    split; [apply not_eq_sym, scratch_not_questions|].
    split; [apply not_eq_sym, transcript_not_questions | exact Hq].
Qed.

(** The videos are never touched. The batch leaves every video it
    discovered as it was: no run writes or removes a discovered video,
    when the extractor writes nothing but its target and lower-casing
    leaves the three suffixes of the program's own files alone. *)
Theorem process_all_videos_keeps_videos
    self working_dir listing fs w video :
  writes_only_audio extract_audio ->
  lower (lit ".wav") = lit ".wav" ->
  lower (lit ".txt") = lit ".txt" ->
  lower (lit ".json") = lit ".json" ->
  In video (find_video_files lower working_dir listing) ->
  (process_all self working_dir listing fs w).1 !! video = fs !! video.
Proof.
  intros Hx Hwav Htxt Hjson Hin.
  rewrite process_all_is_each. apply process_each_frame; [exact Hx|].
  apply find_video_files_In in Hin.
  destruct Hin as (e & _ & -> & _ & Hsupported).
  apply Forall_forall. intros v' _.
  repeat split; intros H; apply (f_equal suffix) in H; simpl in H;
    rewrite H in Hsupported;
    rewrite ?Hwav, ?Htxt, ?Hjson in Hsupported;
    vm_compute in Hsupported; intuition discriminate.
Qed.

End BatchFacts.

Lemma process_all_videos_isolation_witness :
  batch_all default_processor (lit "/videos") TEST_LISTING ∅ 0%nat
  = batch_each default_processor [VIDEO3]
      (batch_video default_processor VIDEO2
         (batch_each default_processor [VIDEO1] ∅ 0%nat).1
         (batch_each default_processor [VIDEO1] ∅ 0%nat).2).1.2
      (batch_video default_processor VIDEO2
         (batch_each default_processor [VIDEO1] ∅ 0%nat).1
         (batch_each default_processor [VIDEO1] ∅ 0%nat).2).2.
Proof.
  apply (process_all_videos_isolation writes_track
           (recognizer_fails_on VIDEO2 (lit " Why is the build slow? "))
           (answering SAMPLE_RESPONSE) JsonRef.json_loads utf8_dump
           ascii_lower
           default_processor (lit "/videos") TEST_LISTING ∅ 0%nat
           [VIDEO1] VIDEO2 [VIDEO3]
           (batch_each default_processor [VIDEO1] ∅ 0%nat).1
           (batch_each default_processor [VIDEO1] ∅ 0%nat).2
           (OtherException (lit "recognition failed"))).
  - vm_compute. reflexivity.
  - apply surjective_pairing.
  - apply (triple_eta (batch_video default_processor VIDEO2 _ _)).
    vm_compute. reflexivity.
Defined.

Lemma process_video_outputs_survive_witness :
  (batch_each default_processor [VIDEO2; VIDEO3]
     (batch_video default_processor VIDEO1 ∅ 0%nat).1.2
     (batch_video default_processor VIDEO1 ∅ 0%nat).2).1
    !! transcript_path default_processor VIDEO1
  = (batch_video default_processor VIDEO1 ∅ 0%nat).1.2
      !! transcript_path default_processor VIDEO1
  /\ (batch_each default_processor [VIDEO2; VIDEO3]
        (batch_video default_processor VIDEO1 ∅ 0%nat).1.2
        (batch_video default_processor VIDEO1 ∅ 0%nat).2).1
       !! questions_path default_processor VIDEO1
     = (batch_video default_processor VIDEO1 ∅ 0%nat).1.2
         !! questions_path default_processor VIDEO1.
Proof.
  apply (process_video_outputs_survive writes_track
           (recognizer_fails_on VIDEO2 (lit " Why is the build slow? "))
           (answering SAMPLE_RESPONSE) JsonRef.json_loads utf8_dump
           default_processor VIDEO1 [VIDEO2; VIDEO3] ∅ 0%nat
           (transcript_path default_processor VIDEO1)
           (questions_path default_processor VIDEO1)
           (batch_video default_processor VIDEO1 ∅ 0%nat).1.2
           (batch_video default_processor VIDEO1 ∅ 0%nat).2).
  - exact writes_track_only_audio.
  - apply (triple_eta (batch_video default_processor VIDEO1 ∅ 0%nat)).
    vm_compute. reflexivity.
  - repeat constructor; vm_compute; discriminate.
Defined.

Lemma process_all_videos_keeps_videos_witness :
  (batch_all default_processor (lit "/videos") TEST_LISTING
     (<[VIDEO1 := Audio VIDEO1]> ∅) 0%nat).1 !! VIDEO1
  = (<[VIDEO1 := Audio VIDEO1]> ∅ : filesystem) !! VIDEO1.
Proof.
  apply (process_all_videos_keeps_videos writes_track
           (recognizer_fails_on VIDEO2 (lit " Why is the build slow? "))
           (answering SAMPLE_RESPONSE) JsonRef.json_loads utf8_dump
           ascii_lower).
  - exact writes_track_only_audio.
  - reflexivity.
  - reflexivity.
  - reflexivity.
  - vm_compute. left. reflexivity.
Defined.

(* ===================================================================== *)
(** * Start-up: the model check *)
(* ===================================================================== *)

Lemma collect_fails {A B} (f : A -> result B) l :
  Exists (fun x => exists e, f x = Raise e) l ->
  exists e, collect f l = Raise e.
Proof.
  induction 1 as [x l (e & Hx) | x l _ (e & IH)]; simpl.
  - rewrite Hx. eauto.
  - destruct (f x); simpl; [|eauto]. rewrite IH. eauto.
Qed.

Section StartupFacts.

Context {World : Type}.
Variable ollama_list : World -> result json * World.
Variable ollama_pull : str -> World -> result unit * World.

Local Abbreviation check := (_check_ollama_model ollama_list ollama_pull).

(** One exception only. Whatever the service does, the check either
    returns or raises the one initialisation error of the processor: no
    exception of the service, and no error of reading its answer, gets
    through. *)
Theorem check_ollama_model_raises_init_error_only
    (self : VideoProcessor) (w : World) :
  fst (check self w) = Ok tt \/ fst (check self w) = Raise (INIT_ERROR self).
Proof.
  unfold _check_ollama_model.
  destruct (check_ollama_model_body ollama_list ollama_pull self w)
    as [[[]|e] w']; simpl; auto.
Qed.

(** When the model is pulled. For a listing that is a dict: without a
    [models] key the model is pulled, as for an empty listing; when the
    names can be read and hold the model, nothing is pulled and the state is
    the one the listing left; when they can be read and do not hold it, the
    model is pulled and a failing pull is the initialisation error; and one
    listed entry whose name cannot be read is the initialisation error,
    without a pull, even when the model is listed too. *)
Theorem check_ollama_model_cases
    (self : VideoProcessor) (w w1 : World) (listing : list (str * json)) :
  ollama_list w = (Ok (JDict listing), w1) ->
  let pulled :=
    match ollama_pull (OLLAMA_MODEL self) w1 with
    | (Ok u, w2) => (Ok u, w2)
    | (Raise _, w2) => (Raise (INIT_ERROR self), w2)
    end in
  (assoc listing (lit "models") = None -> check self w = pulled)
  /\ (forall items names,
        assoc listing (lit "models") = Some (JList items) ->
        collect (fun model => subscript model (lit "name")) items = Ok names ->
        (In (JStr (OLLAMA_MODEL self)) names -> check self w = (Ok tt, w1))
        /\ (~ In (JStr (OLLAMA_MODEL self)) names -> check self w = pulled))
  /\ (forall items,
        assoc listing (lit "models") = Some (JList items) ->
        Exists (fun model => exists e, subscript model (lit "name") = Raise e)
          items ->
        check self w = (Raise (INIT_ERROR self), w1)).
Proof.
  intros Hlist pulled. unfold _check_ollama_model, check_ollama_model_body.
  rewrite Hlist. unfold model_names. simpl.
  split; [|split].
  - intros ->. simpl. subst pulled.
    destruct (ollama_pull _ _) as [[u|e] w2]; reflexivity.
  - intros items names -> Hnames. simpl. rewrite Hnames.
    assert (Hmem : existsb (is_string (OLLAMA_MODEL self)) names = true
                   <-> In (JStr (OLLAMA_MODEL self)) names).
    { rewrite existsb_exists. split.
      - intros (v & Hin & Hv). destruct v; try discriminate.
        simpl in Hv. apply bool_decide_eq_true in Hv. subst. exact Hin.
      - intros Hin. exists (JStr (OLLAMA_MODEL self)). split; [exact Hin|].
        simpl. apply bool_decide_eq_true_2. reflexivity. }
    split; intros H.
    + apply Hmem in H. rewrite H. reflexivity.
    + destruct (existsb _ names) eqn:He; [exfalso; apply H, Hmem; reflexivity|].
      simpl. subst pulled.
      destruct (ollama_pull _ _) as [[u|e] w2]; reflexivity.
  - intros items -> Hbad. simpl.
    destruct (collect_fails _ _ Hbad) as (e & ->). reflexivity.
Qed.

End StartupFacts.

Lemma check_ollama_model_cases_witness :
  _check_ollama_model (lists TEST_MODELS) pull_ok default_processor []
  = (Ok tt, [])
  /\ _check_ollama_model (lists (JDict STATUS_ONLY)) pull_ok
       default_processor []
     = (Ok tt, [lit "llama3.1:8b"])
  /\ _check_ollama_model (lists (JDict UNNAMED_ENTRY)) pull_ok
       default_processor []
     = (Raise (INIT_ERROR default_processor), []).
Proof.
  split; [|split].
  - destruct (check_ollama_model_cases (lists TEST_MODELS) pull_ok
                default_processor [] []
                [(lit "models",
                  JList [JDict [(lit "name", JStr (lit "llama3.1:8b"))]])]
                eq_refl) as (_ & Hb & _).
    destruct (Hb [JDict [(lit "name", JStr (lit "llama3.1:8b"))]]
                [JStr (lit "llama3.1:8b")] eq_refl eq_refl) as [H _].
    apply H. left. reflexivity.
  - destruct (check_ollama_model_cases (lists (JDict STATUS_ONLY)) pull_ok
                default_processor [] [] STATUS_ONLY eq_refl) as (Ha & _).
    apply Ha. reflexivity.
  - destruct (check_ollama_model_cases (lists (JDict UNNAMED_ENTRY)) pull_ok
                default_processor [] [] UNNAMED_ENTRY eq_refl) as (_ & _ & Hc).
    apply (Hc [JDict [(lit "name", JStr (lit "llama3.1:8b"))];
               JDict [(lit "model", JStr (lit "mistral:7b"))]] eq_refl).
    apply Exists_cons_tl, Exists_cons_hd. exists KeyError. reflexivity.
Defined.

(* ===================================================================== *)
(** * The setup script *)
(* ===================================================================== *)

Section SetupFacts.

Import Setup.

Context {World : Type}.
Variable subprocess_run : command -> World -> outcome unit * World.

Local Abbreviation run_cmd := (run_command subprocess_run).

Lemma run_command_not_critical c d w b w' :
  run_cmd c d false w = (Returns b, w') -> b = true.
Proof.
  unfold run_command.
  destruct (subprocess_run (Shell c) w) as [[u|[err| |e]] w1]; intros H;
    inversion H; reflexivity.
Qed.

(** System packages are never reported as missing. Whenever
    [install_system_dependencies] returns, it returns [True]; off macOS it
    runs no command; and on macOS a failed install of ffmpeg does not stop
    the install of Ollama. *)
Theorem install_system_dependencies_never_false (env : Env) (w : World) :
  (forall b w',
     install_system_dependencies subprocess_run env w = (Returns b, w') ->
     b = true)
  /\ (system env <> DARWIN ->
      install_system_dependencies subprocess_run env w = (Returns true, w))
  /\ (system env = DARWIN ->
      forall err w1,
        subprocess_run (Shell (lit "brew install ffmpeg")) w
          = (Raises (CalledProcessError err), w1) ->
        install_system_dependencies subprocess_run env w
        = run_cmd (lit "brew install ollama") (lit "Installing Ollama")
            false w1).
Proof.
  unfold install_system_dependencies, str_eqb. split; [|split].
  - intros b w'. case_bool_decide; simpl.
    + destruct (run_cmd (lit "brew install ffmpeg") _ false w)
        as [[b1|e1] w1] eqn:H1; [|discriminate].
      destruct (run_cmd (lit "brew install ollama") _ false w1)
        as [[b2|e2] w2] eqn:H2; [|discriminate].
      apply run_command_not_critical in H1, H2. subst.
      intros Hres. inversion Hres. reflexivity.
    + intros Hres. inversion Hres. reflexivity.
  - intros Hne. rewrite bool_decide_eq_false_2 by exact Hne. reflexivity.
  - intros Heq err w1 Hrun. rewrite bool_decide_eq_true_2 by exact Heq.
    simpl. unfold run_command at 1. rewrite Hrun.
    destruct (run_cmd (lit "brew install ollama") _ false w1)
      as [[b2|e2] w2] eqn:H2; [|reflexivity].
    apply run_command_not_critical in H2. subst. reflexivity.
Qed.

(** A failed download is not reported. [setup_ollama] returns [False]
    exactly when [ollama list] fails, with a non-zero status or because the
    program is missing; once the listing works, whatever it returns is
    [True], also when the download of the model fails. *)
Theorem setup_ollama_ignores_pull (w : World) :
  match subprocess_run (Argv [lit "ollama"; lit "list"]) w with
  | (Raises (CalledProcessError _), w1) | (Raises FileNotFoundError, w1) =>
      setup_ollama subprocess_run w = (Returns false, w1)
  | (Raises (OtherError e), w1) =>
      setup_ollama subprocess_run w = (Raises (OtherError e), w1)
  | (Returns _, w1) =>
      setup_ollama subprocess_run w
      = run_cmd (lit "ollama pull llama3.1:8b")
          (lit "Downloading Ollama model (this may take a while)") false w1
      /\ forall b w2,
           setup_ollama subprocess_run w = (Returns b, w2) -> b = true
  end.
Proof.
  unfold setup_ollama.
  destruct (subprocess_run (Argv [lit "ollama"; lit "list"]) w)
    as [[u|[err| |e]] w1]; try reflexivity.
  split; [reflexivity|]. intros b w2 H.
  apply run_command_not_critical in H. exact H.
Qed.

End SetupFacts.

Section ConfigFacts.

Import Setup.

Variable read_text : Path -> textfiles -> outcome str.
Variable write_text : Path -> str -> textfiles -> outcome unit * textfiles.

Local Abbreviation config := (create_config read_text write_text).

(** The configuration file. [create_config] never touches a [config.py]
    that exists, and returns [True] then; without [config.py] and without
    the template it returns [False] and touches nothing; with the template
    it returns [False] and touches nothing when the template cannot be
    read, and otherwise it hands the text just read to the write, with no
    substitution made, returns [True] exactly when the write returns, and
    leaves the files as the write did.  So it returns [False] exactly when
    there is no [config.py] and the template is missing, or cannot be read,
    or [config.py] cannot be written.  When a write that returns has
    written what it was asked to, a call that returns [True] has changed no
    file but [config.py], which exists afterwards and, if it was created,
    holds the text of the template; a second call then changes nothing. *)
Theorem create_config_spec (fs : textfiles) :
  let ok := (config fs).1 in
  let fs' := (config fs).2 in
  (is_Some (fs !! CONFIG_FILE) -> ok = true /\ fs' = fs)
  /\ (fs !! CONFIG_FILE = None -> fs !! CONFIG_TEMPLATE = None ->
      ok = false /\ fs' = fs)
  /\ (fs !! CONFIG_FILE = None -> is_Some (fs !! CONFIG_TEMPLATE) ->
      forall e, read_text CONFIG_TEMPLATE fs = Raises e ->
      ok = false /\ fs' = fs)
  /\ (fs !! CONFIG_FILE = None -> is_Some (fs !! CONFIG_TEMPLATE) ->
      forall text, read_text CONFIG_TEMPLATE fs = Returns text ->
      fs' = (write_text CONFIG_FILE text fs).2
      /\ (ok = true
          <-> exists u, (write_text CONFIG_FILE text fs).1 = Returns u))
  /\ (ok = false
      <-> fs !! CONFIG_FILE = None
          /\ (fs !! CONFIG_TEMPLATE = None
              \/ (exists e, read_text CONFIG_TEMPLATE fs = Raises e)
              \/ (exists text e,
                    read_text CONFIG_TEMPLATE fs = Returns text
                    /\ (write_text CONFIG_FILE text fs).1 = Raises e)))
  /\ (writes_as_asked write_text -> ok = true ->
      (forall p, p <> CONFIG_FILE -> fs' !! p = fs !! p)
      /\ is_Some (fs' !! CONFIG_FILE)
      /\ (fs !! CONFIG_FILE = None ->
          exists text,
            read_text CONFIG_TEMPLATE fs = Returns text
            /\ fs' = <[CONFIG_FILE := text]> fs)
      /\ config fs' = (true, fs')).
Proof.
  unfold create_config.
  destruct (fs !! CONFIG_FILE) as [old|] eqn:Hc; simpl.
  { split; [auto|]. split; [discriminate|]. split; [discriminate|].
    split; [discriminate|]. split.
    - split; [discriminate | intros [H _]; discriminate].
    - intros _ _. split; [reflexivity|]. split; [rewrite Hc; eauto|].
      split; [discriminate|]. rewrite Hc. reflexivity. }
  destruct (fs !! CONFIG_TEMPLATE) as [t|] eqn:Ht; simpl.
  2:{ split; [intros [x Hx]; discriminate|]. split; [auto|].
      split; [intros _ [x Hx]; discriminate|].
      split; [intros _ [x Hx]; discriminate|]. split.
      - split; [auto | reflexivity].
      - intros _ H. discriminate. }
  destruct (read_text CONFIG_TEMPLATE fs) as [text|e] eqn:Hr; simpl.
  2:{ split; [intros [x Hx]; discriminate|]. split; [discriminate|].
      split; [auto|]. split; [discriminate|]. split.
      - split; [eauto 6 | reflexivity].
      - intros _ H. discriminate. }
  destruct (write_text CONFIG_FILE text fs) as [[u|e] fs1] eqn:Hw; simpl.
  - split; [intros [x Hx]; discriminate|]. split; [discriminate|].
    split; [discriminate|]. split; [|split].
    + intros _ _ text' Htext. injection Htext as <-. rewrite Hw. simpl.
      split; [reflexivity|]. split; eauto.
    + split; [discriminate|].
      intros [_ [H | [[e H] | (text' & e & Htext & H)]]]; try discriminate.
      injection Htext as <-. rewrite Hw in H. discriminate.
    + intros Hok _. rewrite (Hok _ _ _ _ _ Hw).
      split; [intros p Hp; apply lookup_insert_ne; congruence|].
      rewrite lookup_insert_eq. split; [eauto|]. split; [eauto|reflexivity].
  - split; [intros [x Hx]; discriminate|]. split; [discriminate|].
    split; [discriminate|]. split; [|split].
    + intros _ _ text' Htext. injection Htext as <-. rewrite Hw. simpl.
      split; [reflexivity|]. split; [discriminate | intros [u H]; discriminate].
    + split; [|reflexivity]. intros _. split; [reflexivity|].
      right. right. exists text, e. rewrite Hw. auto.
    + intros _ H. discriminate.
Qed.

End ConfigFacts.

(** A template that is there and cannot be read, and a [config.py] that
    cannot be written: [False], and no file is changed; with both
    working, the template is copied as it is. *)
Lemma create_config_spec_witness :
  Setup.create_config Setup.read_denied Setup.write_plain
    (<[Setup.CONFIG_TEMPLATE := lit "MODEL = 1"]> ∅)
  = (false, <[Setup.CONFIG_TEMPLATE := lit "MODEL = 1"]> ∅)
  /\ (Setup.create_config Setup.read_plain Setup.write_denied
        (<[Setup.CONFIG_TEMPLATE := lit "MODEL = 1"]> ∅)).1 = false
  /\ (Setup.create_config Setup.read_plain Setup.write_plain
        (<[Setup.CONFIG_TEMPLATE := lit "MODEL = 1"]> ∅)).2
     = <[Setup.CONFIG_FILE := lit "MODEL = 1"]>
         (<[Setup.CONFIG_TEMPLATE := lit "MODEL = 1"]> ∅).
Proof.
  split; [|split].
  - destruct (create_config_spec Setup.read_denied Setup.write_plain
                (<[Setup.CONFIG_TEMPLATE := lit "MODEL = 1"]> ∅))
      as (_ & _ & Hread & _).
    destruct (Hread eq_refl (ex_intro _ _ eq_refl) _ eq_refl) as [Hok Hfs].
    rewrite (surjective_pairing (Setup.create_config _ _ _)), Hok, Hfs.
    reflexivity.
  - destruct (create_config_spec Setup.read_plain Setup.write_denied
                (<[Setup.CONFIG_TEMPLATE := lit "MODEL = 1"]> ∅))
      as (_ & _ & _ & _ & Hfalse & _).
    apply Hfalse. split; [reflexivity|]. right. right.
    eexists _, _. split; reflexivity.
  - destruct (create_config_spec Setup.read_plain Setup.write_plain
                (<[Setup.CONFIG_TEMPLATE := lit "MODEL = 1"]> ∅))
      as (_ & _ & _ & Hwrite & _).
    destruct (Hwrite eq_refl (ex_intro _ _ eq_refl) _ eq_refl) as [Hfs _].
    exact Hfs.
Defined.

Section SetupMain.

Import Setup.

Context {World : Type}.
Variable subprocess_run : command -> World -> outcome unit * World.
Variable read_text : Path -> textfiles -> outcome str.
Variable write_text : Path -> str -> textfiles -> outcome unit * textfiles.

Lemma check_platform_true env : check_platform env = true.
Proof. unfold check_platform. destruct (str_eqb _ _); reflexivity. Qed.

Lemma check_python_version_true env :
  check_python_version env = true
  <-> 3 < version_major env
      \/ (version_major env = 3 /\ 8 <= version_minor env).
Proof.
  unfold check_python_version.
  destruct (version_major env <? 3) eqn:H1; simpl.
  - apply Z.ltb_lt in H1. split; [discriminate | lia].
  - apply Z.ltb_ge in H1.
    destruct (version_major env =? 3) eqn:H2; simpl.
    + apply Z.eqb_eq in H2. destruct (version_minor env <? 8) eqn:H3.
      * apply Z.ltb_lt in H3. split; [discriminate | lia].
      * apply Z.ltb_ge in H3. split; [lia | reflexivity].
    + apply Z.eqb_neq in H2. split; [lia | reflexivity].
Qed.

Lemma main_unfold env fs w :
  main subprocess_run read_text write_text env fs w
  = if check_python_version env then
      match (if str_eqb (system env) DARWIN
             then check_homebrew subprocess_run env w
             else (Returns true, w)) with
      | (Raises e, w1) => (Uncaught e, fs, w1)
      | (Returns false, w1) => (Exit 1, fs, w1)
      | (Returns true, w1) => main_after_checks subprocess_run read_text write_text env fs w1
      end
    else (Exit 1, fs, w).
Proof.
  unfold main, main_after_checks. rewrite check_platform_true.
  destruct (check_python_version env); simpl; [|reflexivity].
  destruct (if str_eqb (system env) DARWIN then _ else _)
    as [[[|]|e] w1]; try reflexivity.
  destruct (install_python_dependencies _ _ _ _) as [[python|e] w2];
    [|reflexivity].
  destruct (install_system_dependencies _ _ _) as [[packages|e] w3];
    [|reflexivity].
  destruct (setup_ollama _ _) as [[model|e] w4]; [|reflexivity].
  destruct (create_config read_text write_text fs) as [ok fs']. reflexivity.
Qed.

Lemma main_after_checks_not_1 env fs w1 :
  (main_after_checks subprocess_run read_text write_text env fs w1).1.1 <> Exit 1
  /\ forall s, (main_after_checks subprocess_run read_text write_text env fs w1).1.1 = Exit s -> s = 0.
Proof.
  unfold main_after_checks.
  destruct (install_python_dependencies _ _ _ _) as [[python|e] w2];
    [|simpl; split; [discriminate | intros s H; discriminate]].
  destruct (install_system_dependencies _ _ _) as [[packages|e] w3];
    [|simpl; split; [discriminate | intros s H; discriminate]].
  destruct (setup_ollama _ _) as [[model|e] w4];
    [|simpl; split; [discriminate | intros s H; discriminate]].
  destruct (python && packages && model).
  - destruct (run_basic_test _ _ _) as [[b|e] w5]; simpl;
      (split; [discriminate | intros s H; inversion H; reflexivity])
      || (split; [discriminate | intros s H; discriminate]).
  - simpl. split; [discriminate | intros s H; inversion H; reflexivity].
Qed.

Section Clean.

Hypothesis Hclean : fails_cleanly subprocess_run.

Lemma subprocess_run_clean c w :
  (exists u w', subprocess_run c w = (Returns u, w'))
  \/ (exists err w', subprocess_run c w = (Raises (CalledProcessError err), w')).
Proof.
  destruct (Hclean c w) as [[u H] | [err H]];
    destruct (subprocess_run c w) as [o w']; simpl in H; subst; eauto.
Qed.

Lemma run_command_clean c d critical w :
  exists b w', run_command subprocess_run c d critical w = (Returns b, w').
Proof.
  unfold run_command.
  destruct (subprocess_run_clean (Shell c) w) as [(u & w' & ->) | (err & w' & ->)];
    eauto.
Qed.

Lemma main_after_checks_clean env fs w1 :
  exists s, (main_after_checks subprocess_run read_text write_text env fs w1).1.1 = Exit s.
Proof.
  unfold main_after_checks.
  assert (H1 : exists b w', install_python_dependencies subprocess_run env fs w1
                            = (Returns b, w')).
  { unfold install_python_dependencies.
    destruct (fs !! REQUIREMENTS); [apply run_command_clean | eauto]. }
  destruct H1 as (python & w2 & ->).
  assert (H2 : exists b w', install_system_dependencies subprocess_run env w2
                            = (Returns b, w')).
  { unfold install_system_dependencies.
    destruct (negb _); [eauto|].
    destruct (run_command_clean (lit "brew install ffmpeg")
                (lit "Installing ffmpeg") false w2) as (b1 & w' & ->).
    destruct (run_command_clean (lit "brew install ollama")
                (lit "Installing Ollama") false w') as (b2 & w'' & ->).
    eauto. }
  destruct H2 as (packages & w3 & ->).
  assert (H3 : exists b w', setup_ollama subprocess_run w3 = (Returns b, w')).
  { unfold setup_ollama.
    destruct (subprocess_run_clean (Argv [lit "ollama"; lit "list"]) w3)
      as [(u & w' & ->) | (err & w' & ->)]; [apply run_command_clean | eauto]. }
  destruct H3 as (model & w4 & ->).
  destruct (python && packages && model); [|simpl; eauto].
  assert (H4 : exists b w', run_basic_test subprocess_run env w4
                            = (Returns b, w')).
  { unfold run_basic_test.
    destruct (subprocess_run_clean
                (Argv [executable env; lit "-c"; IMPORT_TEST]) w4)
      as [(u & w' & ->) | (err & w' & ->)]; [|eauto].
    destruct (subprocess_run_clean
                (Argv [executable env; lit "-m"; lit "py_compile";
                       lit "video_processor.py"]) w')
      as [(u' & w'' & ->) | (err & w'' & ->)]; eauto. }
  destruct H4 as (b & w5 & ->). simpl. eauto.
Qed.

End Clean.

(** The exit status of the setup. The script exits with status 1 exactly
    when the interpreter is older than 3.8 or, on macOS, Homebrew is not
    found; in the first case it has run nothing.  Every other ending that
    is an exit has status 0: a failed install, a missing Ollama, a missing
    template and a failed test all end with status 0.  When the commands
    fail only with a non-zero status, the script always ends with an exit,
    never with an exception. *)
Theorem main_exit_status (env : Env) (fs : textfiles) (w : World) :
  let ended := (main subprocess_run read_text write_text env fs w).1.1 in
  (check_python_version env = true
   <-> 3 < version_major env
       \/ (version_major env = 3 /\ 8 <= version_minor env))
  /\ (check_python_version env = false ->
      main subprocess_run read_text write_text env fs w = (Exit 1, fs, w))
  /\ (ended = Exit 1
      <-> check_python_version env = false
          \/ (system env = DARWIN
              /\ fst (check_homebrew subprocess_run env w) = Returns false))
  /\ (forall s, ended = Exit s -> s = 0 \/ s = 1)
  /\ (fails_cleanly subprocess_run -> exists s, ended = Exit s).
Proof.
  intros ended. subst ended. rewrite main_unfold.
  split; [apply check_python_version_true|].
  destruct (check_python_version env) eqn:Hv.
  - unfold str_eqb. case_bool_decide as Hsys.
    + destruct (check_homebrew subprocess_run env w) as [[[|]|e] w1] eqn:Hb;
        simpl.
      * destruct (main_after_checks_not_1 env fs w1) as [Hn1 H0].
        split; [discriminate|]. split; [|split].
        -- split; [contradiction | intros [? | [_ ?]]; discriminate].
        -- intros s Hs. left. apply H0. exact Hs.
        -- intros Hclean. apply main_after_checks_clean. exact Hclean.
      * split; [discriminate|]. split; [|split].
        -- split; [intros _; right; split; [exact Hsys | reflexivity]
                  | reflexivity].
        -- intros s Hs. inversion Hs. right. reflexivity.
        -- intros _. eauto.
      * split; [discriminate|]. split; [|split].
        -- split; [discriminate | intros [? | [_ ?]]; discriminate].
        -- intros s Hs. discriminate.
        -- intros Hclean. exfalso.
           unfold check_homebrew, str_eqb in Hb.
           rewrite bool_decide_eq_true_2 in Hb by exact Hsys. simpl in Hb.
           destruct (subprocess_run_clean Hclean
                       (Argv [lit "brew"; lit "--version"]) w)
             as [(u & w' & Hr) | (err & w' & Hr)];
             rewrite Hr in Hb; discriminate.
    + simpl. destruct (main_after_checks_not_1 env fs w) as [Hn1 H0].
      split; [discriminate|]. split; [|split].
      * split; [contradiction | intros [? | [? _]]; [discriminate | contradiction]].
      * intros s Hs. left. apply H0. exact Hs.
      * intros Hclean. apply main_after_checks_clean. exact Hclean.
  - simpl. split; [reflexivity|]. split; [|split].
    + split; [auto | reflexivity].
    + intros s Hs. inversion Hs. right. reflexivity.
    + intros _. eauto.
Qed.

End SetupMain.

(** On a Mac without Homebrew the setup exits with status 1; on Linux,
    with every command failing and no file present, it creates nothing and
    exits with status 0. *)
Example main_examples :
  (Setup.main Setup.nothing_installed Setup.read_plain Setup.write_plain
     Setup.MAC ∅ 0%nat).1
  = (Setup.Exit 1, ∅)
  /\ (Setup.main Setup.all_commands_fail Setup.read_plain Setup.write_plain
        Setup.LINUX ∅ 0%nat).1
     = (Setup.Exit 0, ∅).
Proof. split; vm_compute; reflexivity. Qed.
